(** * retry-mini: the retry loop of [index.js], embedded and verified

    The JavaScript function [retryMini(task, options)] runs [task], and on
    failure runs it again, up to [maxRetries] more times, consulting the hooks
    [shouldRetry] and [onRetry] and pausing between attempts.

    Embedding.
    - JavaScript values are the inductive type [JsVal]; objects are opaque
      heap references.
    - Numbers are rationals ([Q]).  Where the wait goes through
      [Math.floor], under jitter, every operation that leads to it is
      rounded to binary64 as the engine rounds it ([fl]: to nearest, ties to
      even, subnormals included), the product [baseDelay * Math.max(...)]
      included ([rawWait64]).  Without jitter the wait is the exact product
      ([rawWait]), which the engine's differs from by that rounding alone.
      Overflow, [NaN] and the infinities are outside the model.
    - The caller's callbacks and [Math.random] act on a world [W] (the heap,
      the mocks' counters, the generator's state) that the orchestrator
      threads through and never touches itself.
    - [await] is sequential: a callback either yields a value (it returned,
      or its promise resolved) or an exception (it threw, or its promise
      rejected).
    - Every call the orchestrator makes is appended to a trace, stamped with
      the value of [attemptNumber] at that moment. *)

From Stdlib Require Import String ZArith SpecFloat QArith Qpower Qround Qminmax
  Qabs Qreduction Lqa List Bool Lia.
From Equations Require Import Equations.
Import ListNotations.

Set Implicit Arguments.

(** ** JavaScript values *)

Inductive JsVal : Type :=
| JUndefined
| JNull
| JBool (b : bool)
| JNum (q : Q)
| JNaN
| JStr (s : string)
| JObj (ref : nat).

(** [ToBoolean] of ECMAScript, the test behind [!x]. *)
Definition ToBoolean (v : JsVal) : bool :=
  match v with
  | JUndefined | JNull | JNaN => false
  | JBool b => b
  | JNum q => negb (Qeq_bool q 0)
  | JStr s => negb (String.eqb s EmptyString)
  | JObj _ => true
  end.

(** [a ?? b] *)
Definition nullish (a b : JsVal) : JsVal :=
  match a with
  | JUndefined | JNull => b
  | _ => a
  end.

(** [x ?? d] on an optional field of the options object. *)
Definition field {A : Type} (x : option A) (d : A) : A :=
  match x with
  | Some a => a
  | None => d
  end.

(** How a call ends: with a value, or with a thrown one. *)
Inductive completion (A : Type) : Type :=
| Normal (a : A)
| Throw (e : JsVal).
Arguments Throw {A} e.

(** ** Observable events *)

Inductive event : Type :=
| EvTask (attemptNumber : Z) (r : completion JsVal)
| EvShouldRetry (error : JsVal) (attemptNumber : Z) (r : completion JsVal)
| EvOnRetry (error : JsVal) (attemptNumber : Z) (r : completion JsVal)
| EvRandom (attemptNumber : Z) (u : Q)
| EvSetTimeout (attemptNumber : Z) (ms : Q).

(** ** Number helpers *)

Definition Qltb (x y : Q) : bool := negb (Qle_bool y x).

(** [baseDelay * Math.max(1, backoffFactor ** attemptNumber)] *)
Definition rawWait (baseDelay backoffFactor : Q) (attemptNumber : Z) : Q :=
  baseDelay * Qmax 1 (backoffFactor ^ attemptNumber).

(** *** Binary64

    A JavaScript number is a binary64: a multiple [m * 2 ^ (e - 52)] with
    [|m| < 2 ^ 53] and [e >= -1022].  Every arithmetic operation yields the
    exact result rounded to the nearest such number, ties to the even
    mantissa. *)

(** The exponent of the power of two at or below a positive [x]. *)
Definition ilog2 (x : Q) : Z :=
  let k := (Z.log2 (Qnum x) - Z.log2 (Zpos (Qden x)))%Z in
  if Qle_bool (2 ^ k) x then k else (k - 1)%Z.

(** The exponent of the binade of [x]; the subnormals share the lowest. *)
Definition binade (x : Q) : Z := Z.max (ilog2 (Qabs x)) (-1022).

(** The distance between two neighbouring binary64 numbers around [x]. *)
Definition ulp (x : Q) : Q := 2 ^ (binade x - 52).

(** The integer nearest to [y], ties to even. *)
Definition rne (y : Q) : Z :=
  let f := Qfloor y in
  match Qcompare (y - inject_Z f) (1 # 2) with
  | Lt => f
  | Gt => (f + 1)%Z
  | Eq => if Z.even f then f else (f + 1)%Z
  end.

(** The binary64 number nearest to [x]. *)
Definition fl (x : Q) : Q := Qred (inject_Z (rne (x / ulp x)) * ulp x).

(** [1 + (Math.random() * 2 - 1) * jitter], [u] the random draw: four
    operations, each rounded.  The operands [u] and [jitter] are binary64
    numbers in the engine, hence the rounding of a rational given for them
    (a literal such as [0.3] denotes the binary64 number nearest to it). *)
Definition randomFactor (jitter u : Q) : Q :=
  fl (1 + fl (fl (fl (fl u * 2) - 1) * fl jitter)).

(** [Math.floor(waitTime * randomFactor)] *)
Definition jittered (waitTime jitter u : Q) : Q :=
  inject_Z (Qfloor (fl (fl waitTime * randomFactor jitter u))).

(** [baseDelay * Math.max(1, backoffFactor ** attemptNumber)] as binary64
    has it: the power rounded, then the product rounded.  This is the
    [waitTime] that the jitter multiplies and floors; [**] is taken to be
    correctly rounded. *)
Definition rawWait64 (baseDelay backoffFactor : Q) (attemptNumber : Z) : Q :=
  fl (fl baseDelay * Qmax 1 (fl (fl backoffFactor ^ attemptNumber))).

Arguments fl : simpl never.
Arguments randomFactor : simpl never.
Arguments jittered : simpl never.
Arguments rawWait64 : simpl never.

(** The largest number [Math.random] can return: the binary64 number just
    below 1, [1 - 2 ^ -53]. *)
Definition largest_draw : Q := 9007199254740991 # 9007199254740992.

(** The same expression over the binary64 arithmetic of the Standard
    Library ([SpecFloat], precision 53, maximal exponent 1024). *)
Definition b64_to_Q (f : spec_float) : Q :=
  match f with
  | S754_finite s m e =>
      (if s then - inject_Z (Zpos m) else inject_Z (Zpos m)) * 2 ^ e
  | _ => 0
  end.

Definition b64_one : spec_float := S754_finite false 1 0.
Definition b64_two : spec_float := S754_finite false 2 0.

Definition randomFactor_b64 (jitter u : spec_float) : spec_float :=
  SFadd 53 1024 b64_one
    (SFmul 53 1024 (SFsub 53 1024 (SFmul 53 1024 u b64_two) b64_one) jitter).

Definition jittered_b64 (waitTime jitter u : spec_float) : Q :=
  inject_Z (Qfloor (b64_to_Q (SFmul 53 1024 waitTime
                                (randomFactor_b64 jitter u)))).

Definition b64_of_Z (z : Z) : spec_float :=
  match z with
  | Z0 => S754_zero false
  | Zpos p => S754_finite false p 0
  | Zneg p => S754_finite true p 0
  end.

(** [n / d] in binary64, for integers [n] and [d] below [2 ^ 53]. *)
Definition b64_of_Q (q : Q) : spec_float :=
  SFdiv 53 1024 (b64_of_Z (Qnum q)) (b64_of_Z (Zpos (Qden q))).

(** Numbers to compare the two roundings on. *)
Definition fl_samples : list Q :=
  [0; 1; -1; 1 # 3; 2 # 3; - (1 # 3); 1 # 10; 3 # 10; 7 # 10; 64 # 100;
   435 # 100; 9999 # 10000; 1 # 7; 22 # 7; 100 # 3; 123456789 # 1000;
   1 # 1000000007; 9007199254740991 # 3; 9007199254740991 # 9007199254740992;
   4503599627370497 # 9007199254740991; - (5 # 9); 1000000 # 7].

(** [waitTime > 0 && jitter > 0] *)
Definition jitterApplies (waitTime jitter : Q) : bool :=
  Qltb 0 waitTime && Qltb 0 jitter.

Definition inspect {A : Type} (a : A) : {b : A | a = b} := exist _ a eq_refl.

(** ** The orchestrator *)

Section Orchestrator.

(** The caller's world. *)
Variable W : Type.

Definition Callback : Type := W -> completion JsVal * W.
Definition Task : Type := Z -> Callback.
Definition Hook : Type := JsVal -> Z -> Callback.

(** The [options] object; [None] is a field that is absent, [undefined]
    or [null]. *)
Record Options : Type := mkOptions {
  opt_maxRetries : option Q;
  opt_baseDelay : option Q;
  opt_backoffFactor : option Q;
  opt_jitter : option Q;
  opt_shouldRetry : option Hook;
  opt_onRetry : option Hook
}.

Definition noOptions : Options := mkOptions None None None None None None.

(** The six constants read from [options] when a call starts. *)
Record Config : Type := mkConfig {
  maxRetries : Q;
  baseDelay : Q;
  backoffFactor : Q;
  jitter : Q;
  shouldRetry : Hook;
  onRetry : Hook
}.

(** [() => true] and [() => {}] *)
Definition defaultShouldRetry : Hook := fun _ _ w => (Normal (JBool true), w).
Definition defaultOnRetry : Hook := fun _ _ w => (Normal JUndefined, w).

(** [options = {}], then [options?.x ?? d] field by field. *)
Definition resolve (options : option Options) : Config :=
  let o := field options noOptions in
  mkConfig
    (field (opt_maxRetries o) 3)
    (field (opt_baseDelay o) 0)
    (field (opt_backoffFactor o) 1)
    (field (opt_jitter o) 0)
    (field (opt_shouldRetry o) defaultShouldRetry)
    (field (opt_onRetry o) defaultOnRetry).

(** The local state of one call: the world, [lastError], and the trace. *)
Record State : Type := mkState {
  world : W;
  lastError : JsVal;
  trace : list event
}.

Definition M (A : Type) : Type := State -> completion A * State.

Definition ret {A : Type} (a : A) : M A := fun s => (Normal a, s).

Definition bind {A B : Type} (m : M A) (k : A -> M B) : M B :=
  fun s =>
    match m s with
    | (Normal a, s') => k a s'
    | (Throw e, s') => (Throw e, s')
    end.

(** [try { m } catch (error) { handler error }] *)
Definition try_catch {A : Type} (m : M A) (handler : JsVal -> M A) : M A :=
  fun s =>
    match m s with
    | (Normal a, s') => (Normal a, s')
    | (Throw e, s') => handler e s'
    end.

Definition emit (ev : event) : M unit :=
  fun s => (Normal tt, mkState (world s) (lastError s) (trace s ++ [ev])).

(** [await f(...)]: run the callback on the world and log how it ended. *)
Definition await (f : Callback) (log : completion JsVal -> event) : M JsVal :=
  fun s =>
    let (r, w') := f (world s) in
    (r, mkState w' (lastError s) (trace s ++ [log r])).

(** [lastError = error] *)
Definition set_lastError (error : JsVal) : M unit :=
  fun s => (Normal tt, mkState (world s) error (trace s)).

(** How one pass through the body of the [for] loop ends. *)
Inductive control : Type :=
| Return (v : JsVal)
| Break
| Continue.

Section Loop.

(** [Math.random], a source of numbers kept in the world. *)
Variable Math_random : W -> Q * W.

Variable task : Task.
Variable cfg : Config.

Local Notation "x <- m ;; k" := (bind m (fun x => k))
  (at level 100, m at next level, right associativity).
Local Notation "m ;;; k" := (bind m (fun _ => k))
  (at level 100, right associativity).

Definition random (attemptNumber : Z) : M Q :=
  fun s =>
    let (u, w') := Math_random (world s) in
    (Normal u, mkState w' (lastError s) (trace s ++ [EvRandom attemptNumber u])).

(** [await new Promise(resolve => setTimeout(resolve, waitTime))] *)
Definition setTimeout (attemptNumber : Z) (waitTime : Q) : M unit :=
  emit (EvSetTimeout attemptNumber waitTime).

(** [!retryAllowed || attemptNumber === maxRetries], where
    [retryAllowed = r ?? true] and [r] is what [shouldRetry] gave. *)
Definition stops (r : JsVal) (attemptNumber : Z) : bool :=
  let retryAllowed := nullish r (JBool true) in
  negb (ToBoolean retryAllowed)
  || Qeq_bool (inject_Z attemptNumber) (maxRetries cfg).

(** The body of the loop: the [try] and its [catch]. *)
Definition body (attemptNumber : Z) : M control :=
  try_catch
    (v <- await (task attemptNumber) (EvTask attemptNumber) ;;
     ret (Return v))
    (fun error =>
       set_lastError error ;;;
       r <- await (shouldRetry cfg error attemptNumber)
                  (EvShouldRetry error attemptNumber) ;;
       if stops r attemptNumber then ret Break
       else
         await (onRetry cfg error attemptNumber)
               (EvOnRetry error attemptNumber) ;;;
         let waitTime :=
           rawWait (baseDelay cfg) (backoffFactor cfg) attemptNumber in
         waitTime <- (if jitterApplies waitTime (jitter cfg)
                      then u <- random attemptNumber ;;
                           ret (jittered
                                  (rawWait64 (baseDelay cfg)
                                     (backoffFactor cfg) attemptNumber)
                                  (jitter cfg) u)
                      else ret waitTime) ;;
         (if Qltb 0 waitTime then setTimeout attemptNumber waitTime
          else ret tt) ;;;
         ret Continue).

(** The statement after the loop: [throw lastError]. *)
Definition afterLoop (s : State) : completion JsVal * State :=
  (Throw (lastError s), s).

(** Number of values [a >= attemptNumber] with [a <= maxRetries]: the
    measure under which the loop terminates. *)
Definition remaining (attemptNumber : Z) : nat :=
  Z.to_nat (Qfloor (maxRetries cfg) + 1 - attemptNumber).

(** [for (let attemptNumber = 0; attemptNumber <= maxRetries; attemptNumber++)] *)
Equations loop (attemptNumber : Z) (s : State) : completion JsVal * State
  by wf (remaining attemptNumber) lt :=
  loop attemptNumber s
    with inspect (Qle_bool (inject_Z attemptNumber) (maxRetries cfg)) := {
    | exist _ true Hle with inspect (body attemptNumber s) := {
      | exist _ (Normal (Return v), s') _ := (Normal v, s');
      | exist _ (Normal Break, s') _ := afterLoop s';
      | exist _ (Normal Continue, s') _ := loop (attemptNumber + 1) s';
      | exist _ (Throw e, s') _ := (Throw e, s') };
    | exist _ false _ := afterLoop s }.
Next Obligation.
  apply Qle_bool_iff in Hle. unfold remaining.
  assert (attemptNumber <= Qfloor (maxRetries cfg))%Z.
  { rewrite <- (Qfloor_Z attemptNumber). now apply Qfloor_resp_le. }
  lia.
Qed.

(** [let lastError;] then the loop, then [throw lastError]. *)
Definition execute (w : W) : completion JsVal * W * list event :=
  let (r, s) := loop 0 (mkState w JUndefined []) in
  (r, world s, trace s).

(** *** The shape of a run, as a relation on traces

    [Run a e0 tr out]: entering the loop test with [attemptNumber = a] and
    [lastError = e0], the call goes on to log [tr] and to end with [out]. *)

(** [r] is a way the callback [f] can end. *)
Definition yields (f : Callback) (r : completion JsVal) : Prop :=
  exists w, fst (f w) = r.

(** [u] is a number [Math.random] can give. *)
Definition draws (u : Q) : Prop :=
  exists w, fst (Math_random w) = u.

(** [if (waitTime > 0) await new Promise(...)] *)
Definition timer (attemptNumber : Z) (waitTime : Q) : list event :=
  if Qltb 0 waitTime then [EvSetTimeout attemptNumber waitTime] else [].

(** The value of [waitTime] when the guard [waitTime > 0] of the pause is
    reached, [u] being the number drawn if one is. *)
Definition computedWait (attemptNumber : Z) (u : Q) : Q :=
  let waitTime := rawWait (baseDelay cfg) (backoffFactor cfg) attemptNumber in
  if jitterApplies waitTime (jitter cfg)
  then jittered (rawWait64 (baseDelay cfg) (backoffFactor cfg) attemptNumber)
                (jitter cfg) u
  else waitTime.

Inductive Pause (a : Z) : list event -> Prop :=
| PausePlain :
    jitterApplies (rawWait (baseDelay cfg) (backoffFactor cfg) a) (jitter cfg)
    = false ->
    Pause a (timer a (rawWait (baseDelay cfg) (backoffFactor cfg) a))
| PauseJitter (u : Q) :
    jitterApplies (rawWait (baseDelay cfg) (backoffFactor cfg) a) (jitter cfg)
    = true ->
    draws u ->
    Pause a (EvRandom a u ::
             timer a (jittered (rawWait64 (baseDelay cfg) (backoffFactor cfg) a)
                               (jitter cfg) u)).

Inductive Run : Z -> JsVal -> list event -> completion JsVal -> Prop :=
| RunExit (a : Z) (e0 : JsVal) :
    Qle_bool (inject_Z a) (maxRetries cfg) = false ->
    Run a e0 [] (Throw e0)
| RunReturn (a : Z) (e0 v : JsVal) :
    Qle_bool (inject_Z a) (maxRetries cfg) = true ->
    yields (task a) (Normal v) ->
    Run a e0 [EvTask a (Normal v)] (Normal v)
| RunShouldRetryThrows (a : Z) (e0 e x : JsVal) :
    Qle_bool (inject_Z a) (maxRetries cfg) = true ->
    yields (task a) (Throw e) ->
    yields (shouldRetry cfg e a) (Throw x) ->
    Run a e0 [EvTask a (Throw e); EvShouldRetry e a (Throw x)] (Throw x)
| RunBreak (a : Z) (e0 e v : JsVal) :
    Qle_bool (inject_Z a) (maxRetries cfg) = true ->
    yields (task a) (Throw e) ->
    yields (shouldRetry cfg e a) (Normal v) ->
    stops v a = true ->
    Run a e0 [EvTask a (Throw e); EvShouldRetry e a (Normal v)] (Throw e)
| RunOnRetryThrows (a : Z) (e0 e v x : JsVal) :
    Qle_bool (inject_Z a) (maxRetries cfg) = true ->
    yields (task a) (Throw e) ->
    yields (shouldRetry cfg e a) (Normal v) ->
    stops v a = false ->
    yields (onRetry cfg e a) (Throw x) ->
    Run a e0 [EvTask a (Throw e); EvShouldRetry e a (Normal v);
              EvOnRetry e a (Throw x)] (Throw x)
| RunContinue (a : Z) (e0 e v r : JsVal) (ws tr : list event)
    (out : completion JsVal) :
    Qle_bool (inject_Z a) (maxRetries cfg) = true ->
    yields (task a) (Throw e) ->
    yields (shouldRetry cfg e a) (Normal v) ->
    stops v a = false ->
    yields (onRetry cfg e a) (Normal r) ->
    Pause a ws ->
    Run (a + 1) e tr out ->
    Run a e0 ([EvTask a (Throw e); EvShouldRetry e a (Normal v);
               EvOnRetry e a (Normal r)] ++ ws ++ tr) out.


End Loop.

(** [const retryMini = async (task, options = {}) => ...] *)
Definition retryMini (Math_random : W -> Q * W)
    (task : Task) (options : option Options) (w : W)
  : completion JsVal * W * list event :=
  execute Math_random task (resolve options) w.

End Orchestrator.

Arguments mkOptions {W}.
Arguments noOptions {W}.

(** ** Reading a trace *)

(** The value of [attemptNumber] an event is stamped with. *)
Definition attemptOf (ev : event) : Z :=
  match ev with
  | EvTask k _ | EvShouldRetry _ k _ | EvOnRetry _ k _
  | EvRandom k _ | EvSetTimeout k _ => k
  end.

(** The arguments of the calls of [task], in order. *)
Fixpoint taskArgs (tr : list event) : list Z :=
  match tr with
  | [] => []
  | EvTask k _ :: tr' => k :: taskArgs tr'
  | _ :: tr' => taskArgs tr'
  end.

(** The failures of [task] that were caught, in order. *)
Fixpoint caught (tr : list event) : list JsVal :=
  match tr with
  | [] => []
  | EvTask _ (Throw e) :: tr' => e :: caught tr'
  | _ :: tr' => caught tr'
  end.

(** [a, a+1, ..., a+n-1] *)
Fixpoint upto (a : Z) (n : nat) : list Z :=
  match n with
  | O => []
  | S n' => a :: upto (a + 1) n'
  end.

Definition isPause (ev : event) : bool :=
  match ev with
  | EvRandom _ _ | EvSetTimeout _ _ => true
  | _ => false
  end.

Definition hookThrew (ev : event) : bool :=
  match ev with
  | EvShouldRetry _ _ (Throw _) | EvOnRetry _ _ (Throw _) => true
  | _ => false
  end.

(** The value an event shows a callback throwing. *)
Definition thrownBy (ev : event) : option JsVal :=
  match ev with
  | EvTask _ (Throw x) | EvShouldRetry _ _ (Throw x)
  | EvOnRetry _ _ (Throw x) => Some x
  | _ => None
  end.

(** ** What a call gives back: its outcome, the world it leaves, its trace *)

Definition outcome {W : Type} (R : completion JsVal * W * list event)
  : completion JsVal := fst (fst R).

Definition finalWorld {W : Type} (R : completion JsVal * W * list event)
  : W := snd (fst R).

Definition events {W : Type} (R : completion JsVal * W * list event)
  : list event := snd R.

(** ** Mocks in the style of the test suite; the world counts the calls
    of the task *)

(** [jest.fn().mockRejectedValue(new Error(msg))] *)
Definition alwaysFails (msg : string) : Task nat :=
  fun _ calls => (Throw (JStr msg), S calls).

(** [n] times [mockRejectedValueOnce], then [mockResolvedValue(v)] *)
Definition rejectsThen (n : nat) (msg : string) (v : JsVal) : Task nat :=
  fun _ calls =>
    (if Nat.ltb calls n then Throw (JStr msg) else Normal v, S calls).

(** [jest.fn().mockReturnValue(v)] as a hook *)
Definition hookReturns (v : JsVal) : Hook nat :=
  fun _ _ calls => (Normal v, calls).

Definition hookThrows (x : JsVal) : Hook nat :=
  fun _ _ calls => (Throw x, calls).

(** [Math.random.mockReturnValue(u)] *)
Definition randomConst (u : Q) : nat -> Q * nat := fun calls => (u, calls).

(** ** Calls of the test suite, and a few more *)

Definition opts (maxRetries baseDelay backoffFactor jitter : option Q)
    (shouldRetry onRetry : option (Hook nat)) : option (Options nat) :=
  Some (mkOptions maxRetries baseDelay backoffFactor jitter shouldRetry onRetry).

(** [retryMini(task)] with a task that always rejects *)
Definition call_defaults : completion JsVal * nat * list event :=
  retryMini (randomConst 0) (alwaysFails "Fail") None O.

(** [retryMini(task, { maxRetries: 0 })] with a task that resolves *)
Definition call_success : completion JsVal * nat * list event :=
  retryMini (randomConst 0) (rejectsThen 0 "never" (JStr "success"))
    (opts (Some 0) None None None None None) O.

(** [retryMini(task, { maxRetries: 5, shouldRetry })], [shouldRetry]
    returning [false] *)
Definition call_veto : completion JsVal * nat * list event :=
  retryMini (randomConst 0) (alwaysFails "Fatal Error")
    (opts (Some 5) None None None (Some (hookReturns (JBool false))) None) O.

(** The same with a [shouldRetry] that returns the number [0]. *)
Definition call_zero : completion JsVal * nat * list event :=
  retryMini (randomConst 0) (alwaysFails "Fatal Error")
    (opts (Some 5) None None None (Some (hookReturns (JNum 0))) None) O.

(** [retryMini(task, { maxRetries: 2, baseDelay: 0 })], always rejecting *)
Definition call_permanent : completion JsVal * nat * list event :=
  retryMini (randomConst 0) (alwaysFails "Permanent Failure")
    (opts (Some 2) (Some 0) None None None None) O.

(** An [onRetry] that throws. *)
Definition call_onRetry_throws : completion JsVal * nat * list event :=
  retryMini (randomConst 0) (alwaysFails "Task")
    (opts (Some 5) None None None None (Some (hookThrows (JStr "Hook")))) O.

(** [maxRetries: -1] *)
Definition call_negative : completion JsVal * nat * list event :=
  retryMini (randomConst 0) (rejectsThen 0 "never" (JStr "success"))
    (opts (Some (-1)) None None None None None) 7%nat.

(** [{ maxRetries: 3, baseDelay: 100, backoffFactor: 2 }], always rejecting *)
Definition opts_backoff : option (Options nat) :=
  opts (Some 3) (Some 100) (Some 2) None None None.

Definition call_backoff : completion JsVal * nat * list event :=
  retryMini (randomConst 0) (alwaysFails "Fail") opts_backoff O.


(** [{ baseDelay: 100, jitter: 0.5, maxRetries: 1 }], one rejection, with
    [Math.random] mocked to [u] *)
Definition opts_jitter (j : Q) : option (Options nat) :=
  opts (Some 1) (Some 100) None (Some j) None None.

Definition call_jitter (j u : Q) : completion JsVal * nat * list event :=
  retryMini (randomConst u) (rejectsThen 1 "Fail" (JStr "Done"))
    (opts_jitter j) O.

(** ** More ways to read a trace *)

(** The attempts on which the task failed, in order. *)
Fixpoint failedArgs (tr : list event) : list Z :=
  match tr with
  | [] => []
  | EvTask k (Throw _) :: tr' => k :: failedArgs tr'
  | _ :: tr' => failedArgs tr'
  end.

(** The attempts for which [shouldRetry] was called, in order. *)
Fixpoint shouldRetryArgs (tr : list event) : list Z :=
  match tr with
  | [] => []
  | EvShouldRetry _ k _ :: tr' => k :: shouldRetryArgs tr'
  | _ :: tr' => shouldRetryArgs tr'
  end.

(** The attempts for which [onRetry] was called, in order. *)
Fixpoint onRetryArgs (tr : list event) : list Z :=
  match tr with
  | [] => []
  | EvOnRetry _ k _ :: tr' => k :: onRetryArgs tr'
  | _ :: tr' => onRetryArgs tr'
  end.

(** The timers that were set, in order: the attempt and the milliseconds. *)
Fixpoint timers (tr : list event) : list (Z * Q) :=
  match tr with
  | [] => []
  | EvSetTimeout k ms :: tr' => (k, ms) :: timers tr'
  | _ :: tr' => timers tr'
  end.

(** ** The CommonJS wrapper

    [const module = await import('./index.js')] gives a module namespace
    object; the wrapper reads two of its properties, each a function or
    [undefined]. *)

Definition RetryFn (W : Type) : Type :=
  Task W -> option (Options W) -> W -> completion JsVal * W * list event.

Record ModuleNamespace (W : Type) : Type := mkModule {
  mod_default : option (RetryFn W);
  mod_retryMini : option (RetryFn W)
}.

(** [a || b] on values that are functions (truthy) or [undefined]. *)
Definition logicalOr {A : Type} (a b : option A) : option A :=
  match a with
  | Some _ => a
  | None => b
  end.

(** What [index.js] exports: [export default retryMini], and nothing under
    the name [retryMini]. *)
Definition index_js {W : Type} (Math_random : W -> Q * W) : ModuleNamespace W :=
  mkModule (Some (retryMini Math_random)) None.

(** [const fn = module.default || module.retryMini; return fn(task, options)].
    [None] is the [TypeError] of calling [undefined]. *)
Definition retryMiniCjs {W : Type} (module : ModuleNamespace W)
    (task : Task W) (options : option (Options W)) (w : W)
  : option (completion JsVal * W * list event) :=
  let fn := logicalOr (mod_default module) (mod_retryMini module) in
  match fn with
  | Some f => Some (f task options w)
  | None => None
  end.

(** ** More calls *)

(** [{ maxRetries: 2.5 }], always rejecting *)
Definition call_fractional : completion JsVal * nat * list event :=
  retryMini (randomConst 0) (alwaysFails "Fail")
    (opts (Some (5 # 2)) (Some 100) None None None None) O.

(** [{ maxRetries: 3 }], two rejections then success *)
Definition call_third_time : completion JsVal * nat * list event :=
  retryMini (randomConst 0) (rejectsThen 2 "Fail" (JStr "Third time charm"))
    (opts (Some 3) None None None None None) O.

(** Two rejections then success, with pauses: [baseDelay], [backoffFactor]
    and [jitter] as given, [Math.random] mocked to [u]. *)
Definition call_paused (baseDelay backoffFactor jitter u : Q)
  : completion JsVal * nat * list event :=
  retryMini (randomConst u) (rejectsThen 2 "Fail" (JStr "Done"))
    (opts (Some 2) (Some baseDelay) (Some backoffFactor) (Some jitter)
       None None) O.

(** * Facts *)

(** ** Numbers *)

Lemma Qltb_true_iff (x y : Q) : Qltb x y = true <-> x < y.
Proof.
  unfold Qltb. rewrite negb_true_iff. split; intros H.
  - apply Qnot_le_lt. intros Hc. apply Qle_bool_iff in Hc. congruence.
  - destruct (Qle_bool y x) eqn:Hc; [|reflexivity].
    apply Qle_bool_iff in Hc. exfalso. now apply (Qlt_not_le _ _ H).
Qed.

Lemma Qltb_false_iff (x y : Q) : Qltb x y = false <-> y <= x.
Proof.
  unfold Qltb. rewrite negb_false_iff. apply Qle_bool_iff.
Qed.




Lemma rawWait_first (d b : Q) : rawWait d b 0 == d.
Proof.
  unfold rawWait. cbn [Qpower]. rewrite Q.max_l by apply Qle_refl. ring.
Qed.


Lemma Qfloor_between (x : Q) (lo hi : Z) :
  inject_Z lo <= x -> x < inject_Z hi -> (lo <= Qfloor x < hi)%Z.
Proof.
  intros Hlo Hhi. split.
  - rewrite <- (Qfloor_Z lo). now apply Qfloor_resp_le.
  - rewrite Zlt_Qlt. apply Qle_lt_trans with x; [apply Qfloor_le | exact Hhi].
Qed.

(** ** Binary64 rounding *)

Lemma rne_cases (y : Q) :
  (rne y = Qfloor y /\ y - inject_Z (Qfloor y) <= 1 # 2 /\
   (y - inject_Z (Qfloor y) == 1 # 2 -> Z.even (Qfloor y) = true)) \/
  (rne y = (Qfloor y + 1)%Z /\ 1 # 2 <= y - inject_Z (Qfloor y) /\
   (y - inject_Z (Qfloor y) == 1 # 2 -> Z.even (Qfloor y) = false)).
Proof.
  unfold rne. cbv zeta.
  destruct (Qcompare (y - inject_Z (Qfloor y)) (1 # 2)) eqn:Hc.
  - apply Qeq_alt in Hc. destruct (Z.even (Qfloor y)) eqn:He.
    + left. repeat split; trivial. rewrite Hc. apply Qle_refl.
    + right. repeat split; trivial. rewrite Hc. apply Qle_refl.
  - apply Qlt_alt in Hc. left. repeat split.
    + now apply Qlt_le_weak.
    + intros Heq. rewrite Heq in Hc. now apply Qlt_irrefl in Hc.
  - apply Qgt_alt in Hc. right. repeat split.
    + now apply Qlt_le_weak.
    + intros Heq. rewrite Heq in Hc. now apply Qlt_irrefl in Hc.
Qed.

Lemma rne_monotone (y1 y2 : Q) : y1 <= y2 -> (rne y1 <= rne y2)%Z.
Proof.
  intros Hle. pose proof (Qfloor_resp_le _ _ Hle) as Hf.
  destruct (rne_cases y1) as [(-> & H1 & E1) | (-> & H1 & E1)];
  destruct (rne_cases y2) as [(-> & H2 & E2) | (-> & H2 & E2)]; try lia.
  destruct (Z.eq_dec (Qfloor y1) (Qfloor y2)) as [Heq | Hne]; [|lia].
  exfalso. rewrite Heq in *.
  assert (Ha : y1 - inject_Z (Qfloor y2) == 1 # 2) by lra.
  assert (Hb : y2 - inject_Z (Qfloor y2) == 1 # 2) by lra.
  specialize (E1 Ha). specialize (E2 Hb). congruence.
Qed.

Lemma rne_Z (n : Z) : rne (inject_Z n) = n.
Proof.
  destruct (rne_cases (inject_Z n)) as [(-> & _) | (_ & H & _)].
  - apply Qfloor_Z.
  - rewrite Qfloor_Z in H. exfalso. lra.
Qed.

Lemma two_pow_pos (k : Z) : 0 < 2 ^ k.
Proof. apply Qpower_0_lt. reflexivity. Qed.

Lemma two_pow_plus (a b : Z) : 2 ^ (a + b) == 2 ^ a * 2 ^ b.
Proof. apply Qpower_plus. discriminate. Qed.

Lemma two_pow_le (a b : Z) : (a <= b)%Z -> 2 ^ a <= 2 ^ b.
Proof. intros H. apply Qpower_le_compat_l; [exact H | discriminate]. Qed.

Lemma two_pow_log2 (n : Z) :
  (0 < n)%Z -> 2 ^ Z.log2 n <= inject_Z n /\ inject_Z n < 2 * 2 ^ Z.log2 n.
Proof.
  intros Hn. destruct (Z.log2_spec n Hn) as [Hlo Hhi].
  pose proof (Z.log2_nonneg n) as H0.
  assert (Hp : inject_Z (2 ^ Z.log2 n) == 2 ^ Z.log2 n)
    by (now rewrite Zpower_Qpower).
  split.
  - rewrite <- Hp. now rewrite <- Zle_Qle.
  - rewrite <- Hp. change 2 with (inject_Z 2) at 1.
    rewrite <- inject_Z_mult, <- Zlt_Qlt.
    rewrite Z.pow_succ_r in Hhi by exact H0. exact Hhi.
Qed.

(** [2 ^ ilog2 x <= x < 2 ^ (ilog2 x + 1)] *)
Lemma ilog2_spec (x : Q) :
  0 < x -> 2 ^ ilog2 x <= x /\ x < 2 ^ (ilog2 x + 1).
Proof.
  intros Hx. destruct x as [n d].
  assert (Hn : (0 < n)%Z).
  { unfold Qlt in Hx. cbn in Hx. lia. }
  destruct (two_pow_log2 Hn) as [Ha1 Ha2].
  destruct (two_pow_log2 (Pos2Z.is_pos d)) as [Hb1 Hb2].
  unfold ilog2. cbn [Qnum Qden].
  set (a := Z.log2 n) in *. set (b := Z.log2 (Zpos d)) in *.
  assert (Hk : 2 ^ (a - b) * 2 ^ b == 2 ^ a).
  { rewrite <- two_pow_plus. now replace (a - b + b)%Z with a by lia. }
  assert (Hx' : (n # d) * inject_Z (Zpos d) == inject_Z n).
  { rewrite (Qmake_Qdiv n d). field. discriminate. }
  pose proof (two_pow_pos (a - b)) as Pk.
  pose proof (two_pow_pos a) as Pa. pose proof (two_pow_pos b) as Pb.
  set (x := n # d) in *. set (N := inject_Z n) in *.
  set (D := inject_Z (Zpos d)) in *.
  set (A := 2 ^ a) in *. set (B := 2 ^ b) in *. set (K := 2 ^ (a - b)) in *.
  assert (HD : 0 < D) by lra.
  assert (Hup : x < 2 * K).
  { apply Qnot_le_lt. intros Hc.
    assert (2 * K * D <= x * D) by nra.
    assert (2 * K * B <= 2 * K * D) by nra. nra. }
  assert (Hlo : K < 2 * x).
  { apply Qnot_le_lt. intros Hc.
    assert (2 * x * D <= K * D) by nra.
    assert (K * D < K * (2 * B)) by nra. nra. }
  destruct (Qle_bool K x) eqn:Hc.
  - apply Qle_bool_iff in Hc. split; [exact Hc|].
    rewrite two_pow_plus. fold K. change (2 ^ 1) with 2. lra.
  - assert (Hlt : x < K).
    { apply Qnot_le_lt. intros Hc'. apply Qle_bool_iff in Hc'. congruence. }
    replace (a - b - 1 + 1)%Z with (a - b)%Z by lia. fold K.
    split; [|exact Hlt].
    assert (Hh : 2 ^ (a - b - 1) * 2 == K).
    { unfold K. replace (a - b)%Z with ((a - b - 1) + 1)%Z at 2 by lia.
      rewrite two_pow_plus. reflexivity. }
    lra.
Qed.

Lemma ilog2_monotone (x y : Q) : 0 < x -> x <= y -> (ilog2 x <= ilog2 y)%Z.
Proof.
  intros Hx Hxy.
  destruct (ilog2_spec Hx) as [Hx1 _].
  destruct (ilog2_spec (Qlt_le_trans _ _ _ Hx Hxy)) as [_ Hy2].
  destruct (Z_le_gt_dec (ilog2 x) (ilog2 y)) as [H|H]; [exact H|].
  exfalso.
  assert (2 ^ (ilog2 y + 1) <= 2 ^ ilog2 x) by (apply two_pow_le; lia).
  lra.
Qed.

Lemma fl_eq (x : Q) : fl x == inject_Z (rne (x / ulp x)) * ulp x.
Proof. apply Qred_correct. Qed.

Lemma ulp_pos (x : Q) : 0 < ulp x.
Proof. apply two_pow_pos. Qed.

Lemma div_le (x y q : Q) : 0 < q -> x <= y -> x / q <= y / q.
Proof.
  intros Hq Hxy. apply Qle_shift_div_l; [exact Hq|].
  unfold Qdiv. rewrite <- Qmult_assoc, (Qmult_comm (/ q)), Qmult_inv_r.
  - now rewrite Qmult_1_r.
  - intros Hc. rewrite Hc in Hq. now apply Qlt_irrefl in Hq.
Qed.

Lemma binade_opp (x : Q) : binade (- x) = binade x.
Proof.
  unfold binade. f_equal. f_equal. destruct x as [n d].
  unfold Qabs, Qopp. cbn. now rewrite Z.abs_opp.
Qed.

Lemma ulp_opp (x : Q) : ulp (- x) = ulp x.
Proof. unfold ulp. now rewrite binade_opp. Qed.

Lemma Qabs_pos_eq (x : Q) : 0 < x -> Qabs x = x.
Proof.
  destruct x as [n d]. unfold Qlt, Qabs. cbn. intros H.
  rewrite Z.abs_eq by lia. reflexivity.
Qed.

(** A positive number and its binade. *)
Lemma binade_spec (x : Q) :
  0 < x ->
  x < 2 ^ (binade x + 1) /\ ((-1022 < binade x)%Z -> 2 ^ binade x <= x).
Proof.
  intros Hx. unfold binade. rewrite (Qabs_pos_eq Hx).
  destruct (ilog2_spec Hx) as [Hlo Hhi]. split.
  - apply Qlt_le_trans with (2 ^ (ilog2 x + 1)); [exact Hhi|].
    apply two_pow_le. lia.
  - intros Hb. replace (Z.max (ilog2 x) (-1022)) with (ilog2 x) by lia.
    exact Hlo.
Qed.

Lemma binade_monotone (x y : Q) : 0 < x -> x <= y -> (binade x <= binade y)%Z.
Proof.
  intros Hx Hxy. unfold binade.
  rewrite (Qabs_pos_eq Hx), (Qabs_pos_eq (Qlt_le_trans _ _ _ Hx Hxy)).
  pose proof (ilog2_monotone Hx Hxy). lia.
Qed.

Lemma two_pow_53 (e : Z) : inject_Z (2 ^ 53) * 2 ^ (e - 52) == 2 ^ (e + 1).
Proof.
  rewrite Zpower_Qpower by discriminate. change (inject_Z 2) with 2.
  rewrite <- two_pow_plus. now replace (53 + (e - 52))%Z with (e + 1)%Z by lia.
Qed.

Lemma two_pow_52 (e : Z) : inject_Z (2 ^ 52) * 2 ^ (e - 52) == 2 ^ e.
Proof.
  rewrite Zpower_Qpower by discriminate. change (inject_Z 2) with 2.
  rewrite <- two_pow_plus. now replace (52 + (e - 52))%Z with e by lia.
Qed.

(** The mantissa of a positive number has at most 53 bits, and exactly 53
    above the subnormal range. *)
Lemma mantissa_range (x : Q) :
  0 < x ->
  (0 <= rne (x / ulp x) <= 2 ^ 53)%Z /\
  ((-1022 < binade x)%Z -> (2 ^ 52 <= rne (x / ulp x))%Z).
Proof.
  intros Hx. destruct (binade_spec Hx) as [Hhi Hlo].
  pose proof (ulp_pos x) as Hq. unfold ulp in *.
  set (e := binade x) in *. set (q := 2 ^ (e - 52)) in *.
  split; [split|].
  - rewrite <- (rne_Z 0). apply rne_monotone.
    apply Qle_shift_div_l; [exact Hq|]. change (inject_Z 0) with 0.
    rewrite Qmult_0_l. now apply Qlt_le_weak.
  - rewrite <- (rne_Z (2 ^ 53)). apply rne_monotone.
    apply Qle_shift_div_r; [exact Hq|]. unfold q. rewrite two_pow_53.
    now apply Qlt_le_weak.
  - intros He. rewrite <- (rne_Z (2 ^ 52)). apply rne_monotone.
    apply Qle_shift_div_l; [exact Hq|]. unfold q. rewrite two_pow_52.
    now apply Hlo.
Qed.

Lemma fl_nonneg (x : Q) : 0 <= x -> 0 <= fl x.
Proof.
  intros Hx. rewrite fl_eq. pose proof (ulp_pos x) as Hq.
  assert (H : (0 <= rne (x / ulp x))%Z).
  { rewrite <- (rne_Z 0). apply rne_monotone.
    apply Qle_shift_div_l; [exact Hq|]. change (inject_Z 0) with 0.
    now rewrite Qmult_0_l. }
  apply Qmult_le_0_compat; [|now apply Qlt_le_weak].
  change 0 with (inject_Z 0). now rewrite <- Zle_Qle.
Qed.

Lemma fl_pos_monotone (x y : Q) : 0 < x -> x <= y -> fl x <= fl y.
Proof.
  intros Hx Hxy. assert (Hy : 0 < y) by (now apply Qlt_le_trans with x).
  pose proof (binade_monotone Hx Hxy) as Hb.
  rewrite !fl_eq.
  destruct (Z.eq_dec (binade x) (binade y)) as [Heq | Hne].
  - assert (Hu : ulp x = ulp y) by (unfold ulp; now rewrite Heq).
    rewrite Hu. pose proof (ulp_pos y) as Hq.
    apply Qmult_le_compat_r; [|now apply Qlt_le_weak].
    rewrite <- Zle_Qle. apply rne_monotone. now apply div_le.
  - destruct (mantissa_range Hx) as [[_ Hmx] _].
    destruct (mantissa_range Hy) as [_ Hmy].
    specialize (Hmy ltac:(unfold binade in *; lia)).
    apply Qle_trans with (2 ^ (binade x + 1)).
    + rewrite <- two_pow_53. fold (ulp x).
      apply Qmult_le_compat_r; [|apply Qlt_le_weak, ulp_pos].
      now rewrite <- Zle_Qle.
    + apply Qle_trans with (2 ^ binade y); [apply two_pow_le; lia|].
      rewrite <- two_pow_52. fold (ulp y).
      apply Qmult_le_compat_r; [|apply Qlt_le_weak, ulp_pos].
      now rewrite <- Zle_Qle.
Qed.

Lemma rne_comp (y1 y2 : Q) : y1 == y2 -> rne y1 = rne y2.
Proof.
  intros H. apply Z.le_antisymm; apply rne_monotone; rewrite H; apply Qle_refl.
Qed.

Lemma rne_opp (y : Q) : rne (- y) = (- rne y)%Z.
Proof.
  pose proof (Qfloor_le y) as F1. pose proof (Qlt_floor y) as F2.
  pose proof (Qfloor_le (- y)) as G1. pose proof (Qlt_floor (- y)) as G2.
  rewrite inject_Z_plus in F2, G2.
  change (inject_Z 1) with 1 in *.
  destruct (Qeq_dec y (inject_Z (Qfloor y))) as [Hint | Hfrac].
  - rewrite (rne_comp Hint).
    assert (Hn : - y == inject_Z (- Qfloor y)) by (rewrite inject_Z_opp; lra).
    rewrite (rne_comp Hn), !rne_Z. reflexivity.
  - assert (Hfl : Qfloor (- y) = (- Qfloor y - 1)%Z).
    { assert (H1 : inject_Z (Qfloor (- y)) < inject_Z (- Qfloor y)).
      { rewrite inject_Z_opp.
        destruct (proj1 (Qle_lteq _ _) F1) as [Hlt | Heq]; [lra|].
        exfalso. apply Hfrac. now symmetry. }
      assert (H2 : inject_Z (- Qfloor y - 1) < inject_Z (Qfloor (- y)) + 1).
      { unfold Z.sub. rewrite inject_Z_plus, inject_Z_opp.
        change (inject_Z (- (1))) with (-1). lra. }
      rewrite <- Zlt_Qlt in H1.
      change 1 with (inject_Z 1) in H2.
      rewrite <- inject_Z_plus, <- Zlt_Qlt in H2. lia. }
    assert (Hr : - y - inject_Z (Qfloor (- y))
                 == 1 - (y - inject_Z (Qfloor y))).
    { rewrite Hfl. unfold Z.sub. rewrite inject_Z_plus, inject_Z_opp.
      change (inject_Z (- (1))) with (-1). ring. }
    assert (Hev : Z.even (Qfloor (- y)) = negb (Z.even (Qfloor y))).
    { rewrite Hfl. replace (- Qfloor y - 1)%Z with (- (Qfloor y + 1))%Z by lia.
      rewrite Z.even_opp, Z.add_1_r, Z.even_succ. now rewrite <- Z.negb_even. }
    destruct (rne_cases y) as [(-> & H1 & E1) | (-> & H1 & E1)];
    destruct (rne_cases (- y)) as [(-> & H2 & E2) | (-> & H2 & E2)];
      rewrite Hfl; try lia; exfalso.
    + assert (Ha : y - inject_Z (Qfloor y) == 1 # 2) by lra.
      assert (Hb : - y - inject_Z (Qfloor (- y)) == 1 # 2) by lra.
      specialize (E1 Ha). specialize (E2 Hb). rewrite Hev, E1 in E2.
      discriminate E2.
    + assert (Ha : y - inject_Z (Qfloor y) == 1 # 2) by lra.
      assert (Hb : - y - inject_Z (Qfloor (- y)) == 1 # 2) by lra.
      specialize (E1 Ha). specialize (E2 Hb). rewrite Hev, E1 in E2.
      discriminate E2.
Qed.

Lemma fl_opp (x : Q) : fl (- x) == - fl x.
Proof.
  rewrite !fl_eq, ulp_opp.
  assert (H : - x / ulp x == - (x / ulp x)).
  { unfold Qdiv. ring. }
  rewrite (rne_comp H), rne_opp, inject_Z_opp. ring.
Qed.

(** Rounding to binary64 is monotone. *)
Lemma fl_monotone (x y : Q) : x <= y -> fl x <= fl y.
Proof.
  intros Hxy.
  destruct (Qlt_le_dec 0 x) as [Hx | Hx].
  - now apply fl_pos_monotone.
  - destruct (Qlt_le_dec y 0) as [Hy | Hy].
    + assert (H : fl (- y) <= fl (- x)) by (apply fl_pos_monotone; lra).
      rewrite !fl_opp in H. lra.
    + apply Qle_trans with 0; [|now apply fl_nonneg].
      assert (H : 0 <= fl (- x)) by (apply fl_nonneg; lra).
      rewrite fl_opp in H. lra.
Qed.

Lemma fl_comp (x y : Q) : x == y -> fl x == fl y.
Proof.
  intros H. apply Qle_antisym; apply fl_monotone; rewrite H; apply Qle_refl.
Qed.

(** The rounded number is within half a unit in the last place. *)
Lemma fl_error (x : Q) : Qabs (fl x - x) <= ulp x / 2.
Proof.
  rewrite fl_eq. pose proof (ulp_pos x) as Hq.
  set (q := ulp x) in *. set (y := x / q).
  assert (Hx : x == y * q).
  { unfold y. field. intros Hc. rewrite Hc in Hq. now apply Qlt_irrefl in Hq. }
  pose proof (Qfloor_le y) as F1. pose proof (Qlt_floor y) as F2.
  rewrite inject_Z_plus in F2. change (inject_Z 1) with 1 in F2.
  apply Qabs_Qle_condition.
  assert (Hd : forall f : Q, f * q - x == (f - y) * q)
    by (intros f; rewrite Hx; ring).
  destruct (rne_cases y) as [(-> & H1 & _) | (-> & H1 & _)].
  - rewrite Hd. set (d := inject_Z (Qfloor y) - y).
    assert (Hb : - (1 # 2) <= d <= 0) by (unfold d; lra).
    unfold Qdiv. change (/ 2) with (1 # 2). split; nra.
  - rewrite Hd, inject_Z_plus. change (inject_Z 1) with 1.
    set (d := inject_Z (Qfloor y) + 1 - y).
    assert (Hb : 0 <= d <= 1 # 2) by (unfold d; lra).
    unfold Qdiv. change (/ 2) with (1 # 2). split; nra.
Qed.

(** Rounding keeps a number between two binary64 numbers. *)
Lemma fl_between (lo hi x : Q) :
  fl lo == lo -> fl hi == hi -> lo <= x <= hi -> lo <= fl x <= hi.
Proof.
  intros Hlo Hhi [H1 H2]. split.
  - rewrite <- Hlo. now apply fl_monotone.
  - rewrite <- Hhi. now apply fl_monotone.
Qed.

Lemma ilog2_unique (x : Q) (k : Z) :
  2 ^ k <= x -> x < 2 ^ (k + 1) -> ilog2 x = k.
Proof.
  intros Hlo Hhi.
  assert (Hx : 0 < x).
  { apply Qlt_le_trans with (2 ^ k); [apply two_pow_pos | exact Hlo]. }
  destruct (ilog2_spec Hx) as [H1 H2].
  destruct (Z.lt_trichotomy (ilog2 x) k) as [Hlt | [Heq | Hgt]];
    [|exact Heq|]; exfalso.
  - assert (2 ^ (ilog2 x + 1) <= 2 ^ k) by (apply two_pow_le; lia). lra.
  - assert (2 ^ (k + 1) <= 2 ^ ilog2 x) by (apply two_pow_le; lia). lra.
Qed.

(** A multiple [n * 2 ^ (e - 52)] with a mantissa [n] of at most 53 bits,
    [e] not below the lowest exponent: a binary64 number. *)
Lemma fl_representable (n e : Z) :
  (0 <= n <= 2 ^ 53)%Z -> (-1022 <= e)%Z ->
  fl (inject_Z n * 2 ^ (e - 52)) == inject_Z n * 2 ^ (e - 52).
Proof.
  intros Hn He.
  set (q := 2 ^ (e - 52)).
  pose proof (two_pow_pos (e - 52)) as Hq. fold q in Hq.
  set (y := inject_Z n * q).
  destruct (Z.eq_dec n 0) as [-> | Hn0].
  { assert (Hy : y == 0) by (unfold y; change (inject_Z 0) with 0; ring).
    rewrite (fl_comp Hy), Hy. vm_compute. reflexivity. }
  assert (Hn1 : 1 <= inject_Z n).
  { change 1 with (inject_Z 1). rewrite <- Zle_Qle. lia. }
  assert (Hy0 : 0 < y) by (unfold y; nra).
  assert (Hfin : forall b : Z, binade y = b ->
            (exists m : Z, y == inject_Z m * 2 ^ (b - 52)) -> fl y == y).
  { intros b Hb [m Hm]. rewrite fl_eq. unfold ulp. rewrite Hb.
    pose proof (two_pow_pos (b - 52)) as Hp.
    assert (Hd : y / 2 ^ (b - 52) == inject_Z m).
    { rewrite Hm. field. intros Hc. rewrite Hc in Hp.
      now apply Qlt_irrefl in Hp. }
    rewrite (rne_comp Hd), rne_Z. now symmetry. }
  assert (Hhi : inject_Z n <= inject_Z (2 ^ 53)) by (rewrite <- Zle_Qle; lia).
  assert (Hup : y <= 2 ^ (e + 1)).
  { rewrite <- two_pow_53. fold q. unfold y. nra. }
  destruct (Z.eq_dec n (2 ^ 53)) as [Hmax | Hlt].
  - (* the mantissa overflows into the next binade *)
    assert (Hy : y == 2 ^ (e + 1)).
    { unfold y, q. rewrite Hmax. apply two_pow_53. }
    apply (Hfin (e + 1)%Z).
    + unfold binade. rewrite (Qabs_pos_eq Hy0).
      rewrite (@ilog2_unique y (e + 1)); [lia | rewrite Hy; apply Qle_refl |].
      rewrite Hy. apply Qlt_le_trans with (2 ^ (e + 1) * 2 ^ 1).
      * change (2 ^ 1) with 2. pose proof (two_pow_pos (e + 1)). lra.
      * rewrite <- two_pow_plus. apply Qle_refl.
    + exists (2 ^ 52)%Z. rewrite Hy. symmetry.
      replace (e + 1 - 52)%Z with ((e + 1) - 52)%Z by lia. apply two_pow_52.
  - assert (Hlt' : y < 2 ^ (e + 1)).
    { rewrite <- two_pow_53. fold q. unfold y.
      assert (inject_Z n < inject_Z (2 ^ 53)) by (rewrite <- Zlt_Qlt; lia).
      nra. }
    assert (Hb : (-1022 <= binade y <= e)%Z).
    { unfold binade. rewrite (Qabs_pos_eq Hy0).
      destruct (ilog2_spec Hy0) as [I1 I2].
      destruct (Z_le_gt_dec (ilog2 y) e) as [H|H]; [lia|]. exfalso.
      assert (2 ^ (e + 1) <= 2 ^ ilog2 y) by (apply two_pow_le; lia). lra. }
    apply (Hfin (binade y) eq_refl).
    exists (n * 2 ^ (e - binade y))%Z.
    rewrite inject_Z_mult, Zpower_Qpower by lia. change (inject_Z 2) with 2.
    rewrite <- Qmult_assoc, <- two_pow_plus.
    replace (e - binade y + (binade y - 52))%Z with (e - 52)%Z by lia.
    reflexivity.
Qed.

(** Rounding a binary64 number changes nothing. *)
Lemma fl_idempotent (x : Q) : fl (fl x) == fl x.
Proof.
  assert (Hpos : forall y, 0 < y -> fl (fl y) == fl y).
  { intros y Hy. destruct (mantissa_range Hy) as [Hm _].
    assert (E : fl y == inject_Z (rne (y / ulp y)) * 2 ^ (binade y - 52))
      by apply fl_eq.
    rewrite (fl_comp E), E.
    apply fl_representable; [exact Hm | unfold binade; lia]. }
  destruct (Qlt_le_dec 0 x) as [Hx | Hx]; [now apply Hpos|].
  destruct (Qeq_dec x 0) as [H0 | Hn].
  - rewrite (fl_comp (fl_comp H0)), (fl_comp H0). vm_compute. reflexivity.
  - assert (Hx' : 0 < - x).
    { destruct (proj1 (Qle_lteq _ _) Hx) as [Hlt | Heq]; [lra | contradiction]. }
    specialize (Hpos _ Hx').
    rewrite (fl_comp (fl_opp x)), fl_opp in Hpos. rewrite fl_opp in Hpos. lra.
Qed.

(** [largest_draw] is a binary64 number below 1, and no binary64 number
    lies between the two. *)
Lemma largest_draw_spec :
  fl largest_draw == largest_draw /\ largest_draw < 1 /\
  forall u, fl u == u -> u < 1 -> u <= largest_draw.
Proof.
  split; [vm_compute; reflexivity|]. split; [reflexivity|].
  intros u Hrep Hu1. apply Qnot_lt_le. intros Hgt.
  assert (Hu0 : 0 < u).
  { apply Qlt_trans with largest_draw; [reflexivity | exact Hgt]. }
  assert (Hb : binade u = (-1)%Z).
  { pose proof (@binade_monotone largest_draw u eq_refl
                  (Qlt_le_weak _ _ Hgt)) as Hm.
    assert (Hc : binade largest_draw = (-1)%Z) by (vm_compute; reflexivity).
    rewrite Hc in Hm.
    destruct (binade_spec Hu0) as [_ Hlo].
    destruct (Z_le_gt_dec (binade u) (-1)) as [H|H]; [lia|]. exfalso.
    assert (Hp : 2 ^ 0 <= 2 ^ binade u) by (apply two_pow_le; lia).
    specialize (Hlo ltac:(lia)). change (2 ^ 0) with 1 in Hp. lra. }
  rewrite fl_eq in Hrep. unfold ulp in Hrep. rewrite Hb in Hrep.
  set (n := rne (u / 2 ^ (-1 - 52))) in *.
  change (2 ^ (-1 - 52)) with (1 # 9007199254740992) in Hrep.
  assert (H1 : inject_Z 9007199254740991 < inject_Z n).
  { rewrite <- Hrep in Hgt. unfold largest_draw in Hgt.
    unfold Qlt in *. cbn in *. lia. }
  assert (H2 : inject_Z n < inject_Z 9007199254740992).
  { rewrite <- Hrep in Hu1. unfold Qlt in *. cbn in *. lia. }
  rewrite <- Zlt_Qlt in H1, H2. lia.
Qed.


(** From here on [fl] is only evaluated on given numbers; the proofs
    reason about it through the lemmas above. *)
Strategy opaque [fl].

Ltac exact_double := vm_compute; reflexivity.

(** ** The jitter *)

Lemma Qfloor_lower (z : Z) (x : Q) :
  inject_Z z <= x -> inject_Z z <= inject_Z (Qfloor x).
Proof.
  intros H. rewrite <- Zle_Qle. apply Z.le_trans with (Qfloor (inject_Z z)).
  - rewrite Qfloor_Z. apply Z.le_refl.
  - now apply Qfloor_resp_le.
Qed.

Lemma Qfloor_upper (z : Z) (x : Q) :
  x <= inject_Z z -> inject_Z (Qfloor x) <= inject_Z z.
Proof.
  intros H. apply Qle_trans with x; [apply Qfloor_le | exact H].
Qed.

Lemma randomFactor_comp (j j' u : Q) :
  j == j' -> randomFactor j u == randomFactor j' u.
Proof.
  intros H. unfold randomFactor. apply fl_comp.
  apply Qplus_comp; [reflexivity|]. apply fl_comp.
  apply Qmult_comp; [reflexivity|]. now apply fl_comp.
Qed.

Lemma jittered_comp (w w' j j' u : Q) :
  w == w' -> j == j' -> jittered w j u = jittered w' j' u.
Proof.
  intros Hw Hj. unfold jittered. f_equal. apply Qfloor_comp, fl_comp.
  apply Qmult_comp; [now apply fl_comp | now apply randomFactor_comp].
Qed.

(** [(Math.random() * 2 - 1)] for a draw between [0] and [1] *)
Lemma centred_draw_range (u : Q) :
  0 <= u <= 1 -> -1 <= fl (fl (fl u * 2) - 1) <= 1.
Proof.
  intros Hu.
  assert (H1 : 0 <= fl u <= 1)
    by (apply fl_between; [exact_double .. | exact Hu]).
  assert (H2 : 0 <= fl (fl u * 2) <= 2)
    by (apply fl_between; [exact_double .. | lra]).
  apply fl_between; [exact_double .. | lra].
Qed.



(** On the first attempt the wait is [baseDelay] itself. *)
Lemma rawWait64_first (d b : Q) : rawWait64 d b 0 == fl d.
Proof.
  unfold rawWait64. cbn [Qpower].
  assert (H1 : fl 1 == 1) by exact_double.
  assert (Hm : Qmax 1 (fl 1) == 1).
  { apply Q.max_l. rewrite H1. apply Qle_refl. }
  assert (Hp : fl d * Qmax 1 (fl 1) == fl d) by (rewrite Hm; ring).
  rewrite (fl_comp Hp). apply fl_idempotent.
Qed.


(** [Math.floor(100 * (1 + (u * 2 - 1) * 0.5))] for [u] between [0] and
    [1]. *)
Lemma jittered_half (w j u : Q) :
  w == 100 -> j == 1 # 2 -> 0 <= u <= 1 ->
  50 <= jittered w j u /\ jittered w j u <= 150.
Proof.
  intros Hw Hj Hu. rewrite (jittered_comp u Hw Hj). clear w j Hw Hj.
  unfold jittered, randomFactor.
  pose proof (centred_draw_range Hu) as H3.
  set (b := fl (fl (fl u * 2) - 1)) in *.
  assert (Hh : fl (1 # 2) == 1 # 2) by exact_double.
  assert (Hc : fl 100 == 100) by exact_double.
  set (h := fl (1 # 2)) in *. set (c100 := fl 100) in *.
  assert (H4 : - (1 # 2) <= fl (b * h) <= 1 # 2)
    by (apply fl_between; [exact_double .. | rewrite Hh; lra]).
  set (c := fl (b * h)) in *.
  assert (H5 : 1 # 2 <= fl (1 + c) <= 3 # 2)
    by (apply fl_between; [exact_double .. | lra]).
  set (r := fl (1 + c)) in *.
  assert (H6 : 50 <= fl (c100 * r) <= 150)
    by (apply fl_between; [exact_double .. | rewrite Hc; lra]).
  destruct H6 as [Hlo Hhi]. split.
  - apply (@Qfloor_lower 50%Z). exact Hlo.
  - apply (@Qfloor_upper 150%Z). exact Hhi.
Qed.

(** *** The rounding, checked against [SpecFloat]

    [0.3] and [0.64] below are the binary64 numbers nearest to these
    decimals. *)

Example fl_on_samples :
  forallb (fun q => Qeq_bool (fl q) (b64_to_Q (b64_of_Q q))) fl_samples
  = true.
Proof. vm_compute. reflexivity. Qed.

(** Ties go to the even mantissa: [2 ^ 53 + 1] and [2 ^ 53 + 3]. *)
Example fl_on_ties :
  fl (inject_Z (2 ^ 53 + 1))
  == b64_to_Q (SFadd 53 1024 (b64_of_Z (2 ^ 53)) (b64_of_Z 1)) /\
  fl (inject_Z (2 ^ 53 + 3))
  == b64_to_Q (SFadd 53 1024 (b64_of_Z (2 ^ 53)) (b64_of_Z 3)).
Proof. vm_compute. split; reflexivity. Qed.

(** Below [2 ^ -1022] the spacing stays at [2 ^ -1074]. *)
Example fl_on_subnormals :
  fl (3 * 2 ^ (-1075))
  == b64_to_Q (SFmul 53 1024 (S754_finite false 1 (-1000))
                 (S754_finite false 3 (-75))) /\
  fl (5 * 2 ^ (-1076))
  == b64_to_Q (SFmul 53 1024 (S754_finite false 1 (-1000))
                 (S754_finite false 5 (-76))) /\
  fl (2 ^ (-1075)) == 0.
Proof. vm_compute. repeat split; reflexivity. Qed.

Example fl_literal_03 :
  fl (3 # 10) == b64_to_Q (S754_finite false 5404319552844595 (-54)).
Proof. vm_compute. reflexivity. Qed.

Example fl_literal_064 :
  fl (64 # 100) == b64_to_Q (S754_finite false 5764607523034235 (-53)).
Proof. vm_compute. reflexivity. Qed.

(** [Math.floor(90 * (1 + (0 * 2 - 1) * 0.3))] is [62]: the factor is
    rounded to just below [0.7], where the exact product is just above
    [63]. *)
Example jittered_90_03_0 :
  jittered 90 (3 # 10) 0 = 62 /\
  jittered_b64 (S754_finite false 90 0)
               (S754_finite false 5404319552844595 (-54))
               (S754_zero false) = 62 /\
  Qfloor (90 * (1 + (0 * 2 - 1) * fl (3 # 10))) = 63%Z.
Proof. vm_compute. repeat split. Qed.

(** The largest draw, [1 - 2 ^ -53], at [baseDelay] 100 and [jitter] 0.5:
    the factor rounds to [1.5] and the wait is [150]. *)
Example jittered_100_05_max :
  jittered 100 (1 # 2) (9007199254740991 # 9007199254740992) = 150 /\
  jittered_b64 (S754_finite false 100 0) (S754_finite false 1 (-1))
               (S754_finite false 9007199254740991 (-53)) = 150.
Proof. vm_compute. repeat split. Qed.

Example jittered_100_03_075 :
  jittered 100 (3 # 10) (3 # 4) = 114 /\
  jittered_b64 (S754_finite false 100 0)
               (S754_finite false 5404319552844595 (-54))
               (S754_finite false 3 (-2)) = 114.
Proof. vm_compute. repeat split. Qed.

(** [4.35 * 100] is [434.99999999999994] in binary64: on the second
    attempt, with [baseDelay] 4.35 and [backoffFactor] 100, a draw of 0.5
    (a factor of exactly 1) gives a wait of 434. *)
Example jittered_435_100_half :
  jittered (rawWait64 (435 # 100) 100 1) (1 # 2) (1 # 2) = 434 /\
  jittered_b64
    (SFmul 53 1024 (S754_finite false 2448832297382707 (-49))
       (S754_finite false 100 0))
    (S754_finite false 1 (-1)) (S754_finite false 1 (-1)) = 434 /\
  fl (435 # 100) == b64_to_Q (S754_finite false 2448832297382707 (-49)) /\
  rawWait (435 # 100) 100 1 == 435.
Proof. vm_compute. repeat split. Qed.

(** A wait of [1], where the exact product is just below [1]. *)
Example jittered_2_064_7_64 :
  jittered 2 (64 # 100) (7 # 64) = 1 /\
  jittered_b64 (S754_finite false 2 0)
               (S754_finite false 5764607523034235 (-53))
               (S754_finite false 7 (-6)) = 1 /\
  Qfloor (2 * (1 + ((7 # 64) * 2 - 1) * fl (64 # 100))) = 0%Z.
Proof. vm_compute. repeat split. Qed.

Section LoopFacts.

Variable W : Type.
Variable Math_random : W -> Q * W.
Variable task : Task W.
Variable cfg : Config W.

Local Abbreviation loop := (loop Math_random task cfg).
Local Abbreviation body := (body Math_random task cfg).
Local Abbreviation Run := (Run Math_random task cfg).
Local Abbreviation Pause := (Pause Math_random cfg).

(** The loop, one pass unfolded. *)
Lemma loop_eq (attemptNumber : Z) (s : State W) :
  loop attemptNumber s =
  if Qle_bool (inject_Z attemptNumber) (maxRetries cfg) then
    match body attemptNumber s with
    | (Normal (Return v), s') => (Normal v, s')
    | (Normal Break, s') => afterLoop s'
    | (Normal Continue, s') => loop (attemptNumber + 1) s'
    | (Throw e, s') => (Throw e, s')
    end
  else afterLoop s.
Proof.
  funelim (loop attemptNumber s).
  all: try (match goal with H : Qle_bool _ _ = _ |- _ => rewrite H end).
  all: try (match goal with H : body _ _ = _ |- _ => rewrite H end).
  all: reflexivity.
Qed.


Lemma body_cases (a : Z) (s : State W) :
  match body a s with
  | (Normal (Return v), s') =>
      yields (task a) (Normal v) /\
      trace s' = trace s ++ [EvTask a (Normal v)]
  | (Normal Break, s') =>
      exists v, let e := lastError s' in
      yields (task a) (Throw e) /\
      yields (shouldRetry cfg e a) (Normal v) /\
      stops cfg v a = true /\
      trace s' = trace s ++ [EvTask a (Throw e); EvShouldRetry e a (Normal v)]
  | (Normal Continue, s') =>
      exists v r ws, let e := lastError s' in
      yields (task a) (Throw e) /\
      yields (shouldRetry cfg e a) (Normal v) /\
      stops cfg v a = false /\
      yields (onRetry cfg e a) (Normal r) /\
      Pause a ws /\
      trace s' = trace s ++ [EvTask a (Throw e); EvShouldRetry e a (Normal v);
                             EvOnRetry e a (Normal r)] ++ ws
  | (Throw x, s') =>
      exists e,
      yields (task a) (Throw e) /\
      ((yields (shouldRetry cfg e a) (Throw x) /\
        trace s' = trace s ++ [EvTask a (Throw e); EvShouldRetry e a (Throw x)])
       \/
       (exists v,
        yields (shouldRetry cfg e a) (Normal v) /\
        stops cfg v a = false /\
        yields (onRetry cfg e a) (Throw x) /\
        trace s' = trace s ++ [EvTask a (Throw e); EvShouldRetry e a (Normal v);
                               EvOnRetry e a (Throw x)]))
  end.
Proof.
  unfold body, try_catch, bind, await, set_lastError, ret, random, setTimeout,
    emit.
  destruct (task a (world s)) as [[v|e] w1] eqn:Ht; cbn.
  { split; [exists (world s); now rewrite Ht | reflexivity]. }
  assert (Yt : yields (task a) (Throw e)) by (exists (world s); now rewrite Ht).
  destruct (shouldRetry cfg e a w1) as [[v|x] w2] eqn:Hs; cbn.
  2: { exists e. split; [exact Yt|]. left. split.
       - exists w1; now rewrite Hs.
       - now rewrite <- app_assoc. }
  assert (Ys : yields (shouldRetry cfg e a) (Normal v))
    by (exists w1; now rewrite Hs).
  destruct (stops cfg v a) eqn:Hstop; cbn.
  { exists v. cbn. repeat split; trivial. now rewrite <- app_assoc. }
  destruct (onRetry cfg e a w2) as [[r|x] w3] eqn:Ho; cbn.
  2: { exists e. split; [exact Yt|]. right. exists v. repeat split; trivial.
       - exists w2; now rewrite Ho.
       - now rewrite <- !app_assoc. }
  assert (Yo : yields (onRetry cfg e a) (Normal r))
    by (exists w2; now rewrite Ho).
  destruct (jitterApplies _ _) eqn:Hj; cbn.
  - destruct (Math_random w3) as [u w4] eqn:Hr; cbn.
    assert (HP : Pause a (EvRandom a u :: timer a
                   (jittered (rawWait64 (baseDelay cfg) (backoffFactor cfg) a)
                             (jitter cfg) u))).
    { apply PauseJitter; [exact Hj | exists w3; now rewrite Hr]. }
    unfold timer in HP.
    destruct (Qltb 0 _) eqn:Hw; cbn;
      exists v, r; eexists; cbn; repeat split; trivial; try exact HP;
      rewrite <- ?app_assoc; reflexivity.
  - assert (HP : Pause a (timer a
                   (rawWait (baseDelay cfg) (backoffFactor cfg) a))).
    { apply PausePlain; exact Hj. }
    unfold timer in HP.
    destruct (Qltb 0 _) eqn:Hw; cbn;
      exists v, r; eexists; cbn; repeat split; trivial; try exact HP;
      rewrite <- ?app_assoc, ?app_nil_r; reflexivity.
Qed.

(** Every pass through the loop is total and follows [Run]. *)
Lemma loop_run (a : Z) (s : State W) :
  exists tr,
    trace (snd (loop a s)) = trace s ++ tr /\
    Run a (lastError s) tr (fst (loop a s)).
Proof.
  remember (remaining cfg a) as n eqn:Hn. revert a s Hn.
  induction n as [n IH] using lt_wf_ind. intros a s Hn.
  rewrite loop_eq.
  destruct (Qle_bool (inject_Z a) (maxRetries cfg)) eqn:Hle.
  2: { exists []. cbn. split; [now rewrite app_nil_r | now constructor]. }
  pose proof (body_cases a s) as Hb.
  destruct (body a s) as [[[v| |]|x] s'].
  - destruct Hb as [Hy Ht]. exists [EvTask a (Normal v)]. cbn.
    split; [exact Ht | now constructor].
  - destruct Hb as (v & Hy & Hs & Hstop & Ht). cbn in *.
    eexists. split; [exact Ht | now apply RunBreak with (v := v)].
  - destruct Hb as (v & r & ws & Hy & Hs & Hstop & Ho & Hp & Ht). cbn in *.
    assert (Hlt : (remaining cfg (a + 1) < n)%nat).
    { subst n. apply Qle_bool_iff in Hle. unfold remaining.
      assert (a <= Qfloor (maxRetries cfg))%Z.
      { rewrite <- (Qfloor_Z a). now apply Qfloor_resp_le. }
      lia. }
    destruct (IH _ Hlt (a + 1)%Z s' eq_refl) as (tr & Htr & Hrun).
    eexists. split.
    + rewrite Htr, Ht. rewrite <- !app_assoc. reflexivity.
    + cbn. eapply RunContinue; eauto.
  - destruct Hb as (e & Hy & [[Hs Ht] | (v & Hs & Hstop & Ho & Ht)]); cbn.
    + eexists. split; [exact Ht | now constructor].
    + eexists. split; [exact Ht | now apply RunOnRetryThrows with (v := v)].
Qed.

(** *** Events and the attempt they belong to *)

Lemma Pause_events (a : Z) (ws : list event) :
  Pause a ws ->
  forall ev, In ev ws -> attemptOf ev = a /\ isPause ev = true.
Proof.
  intros [Hj | u Hj Hd] ev; unfold timer; destruct (Qltb 0 _); cbn;
    intuition (subst; auto).
Qed.

Lemma taskArgs_app (l1 l2 : list event) :
  taskArgs (l1 ++ l2) = taskArgs l1 ++ taskArgs l2.
Proof.
  induction l1 as [|[] l1 IH]; cbn; congruence.
Qed.

Lemma taskArgs_pause (l : list event) :
  (forall ev, In ev l -> isPause ev = true) -> taskArgs l = [].
Proof.
  induction l as [|ev l IH]; intros H; [reflexivity|].
  pose proof (H ev (or_introl eq_refl)) as Hev.
  destruct ev; cbn in *; try discriminate; apply IH; auto.
Qed.

Lemma Pause_taskArgs (a : Z) (ws : list event) :
  Pause a ws -> taskArgs ws = [].
Proof.
  intros HP. apply taskArgs_pause. intros ev Hev.
  now destruct (Pause_events HP ev Hev).
Qed.

Lemma caught_app (l1 l2 : list event) :
  caught (l1 ++ l2) = caught l1 ++ caught l2.
Proof.
  induction l1 as [|[? [] | | | |] l1 IH]; cbn; congruence.
Qed.

Lemma Pause_caught (a : Z) (ws : list event) :
  Pause a ws -> caught ws = [].
Proof.
  intros [Hj | u Hj Hd]; unfold timer; destruct (Qltb 0 _); reflexivity.
Qed.

Lemma upto_app (a : Z) (n m : nat) :
  upto a (n + m) = upto a n ++ upto (a + Z.of_nat n) m.
Proof.
  revert a. induction n as [|n IH]; intros a.
  - cbn. now rewrite Z.add_0_r.
  - cbn [Nat.add upto app]. rewrite IH. do 3 f_equal. lia.
Qed.

Lemma upto_length (a : Z) (n : nat) : length (upto a n) = n.
Proof.
  revert a. induction n as [|n IH]; intros a; cbn; auto.
Qed.

Lemma Qle_bool_inject (a : Z) (m : Q) :
  Qle_bool (inject_Z a) m = true <-> (a <= Qfloor m)%Z.
Proof.
  rewrite Qle_bool_iff. split; intros H.
  - rewrite <- (Qfloor_Z a). now apply Qfloor_resp_le.
  - apply Qle_trans with (inject_Z (Qfloor m)); [|apply Qfloor_le].
    now rewrite <- Zle_Qle.
Qed.

(** Whatever a pass entered at [a] logs is stamped [a] or later, and no
    later than [maxRetries]. *)
Lemma Run_attempt_ge (a : Z) (e0 : JsVal) (tr : list event)
    (out : completion JsVal) :
  Run a e0 tr out -> forall ev, In ev tr -> (a <= attemptOf ev)%Z.
Proof.
  induction 1 as [ | | | | | a e0 e v r ws tr out Hle Yt Ys Hst Yo HP HR IH];
    intros ev Hin; cbn in Hin;
    try (intuition (subst; cbn; lia)).
  destruct Hin as [<-|[<-|[<-|Hin]]]; cbn; try lia.
  apply in_app_or in Hin as [Hin|Hin].
  - destruct (Pause_events HP _ Hin) as [-> _]. lia.
  - specialize (IH _ Hin). lia.
Qed.

Lemma Run_attempt_le (a : Z) (e0 : JsVal) (tr : list event)
    (out : completion JsVal) :
  Run a e0 tr out ->
  forall ev, In ev tr -> (attemptOf ev <= Qfloor (maxRetries cfg))%Z.
Proof.
  induction 1 as [ | | | | | a e0 e v r ws tr out Hle Yt Ys Hst Yo HP HR IH];
    intros ev Hin; cbn in Hin; [contradiction|..];
    match goal with
    | H : Qle_bool _ _ = true |- _ => apply Qle_bool_inject in H
    end;
    try (intuition (subst; cbn; lia)).
  destruct Hin as [<-|[<-|[<-|Hin]]]; cbn; try lia.
  apply in_app_or in Hin as [Hin|Hin].
  - destruct (Pause_events HP _ Hin) as [-> _]. lia.
  - exact (IH _ Hin).
Qed.

(** A run that logs an event stamped [k] went through the loop test with
    [attemptNumber = k], having called the task for [a, ..., k-1]. *)
Lemma Run_reaches (a : Z) (e0 : JsVal) (tr : list event)
    (out : completion JsVal) :
  Run a e0 tr out ->
  forall ev, In ev tr ->
  exists e1 pre tr',
    tr = pre ++ tr' /\
    Run (attemptOf ev) e1 tr' out /\
    In ev tr' /\
    (a <= attemptOf ev)%Z /\
    taskArgs pre = upto a (Z.to_nat (attemptOf ev - a)) /\
    (forall ev', In ev' pre -> (attemptOf ev' < attemptOf ev)%Z).
Proof.
  intros HR. pose proof HR as HR0.
  induction HR as [ | | | | | a e0 e v r ws tr out Hle Yt Ys Hst Yo HP HR IH];
    intros ev Hin.
  1: destruct Hin.
  1-4: (assert (Ha : attemptOf ev = a)
          by (cbn in Hin; intuition (subst; reflexivity));
        rewrite Ha; exists e0, []; eexists; cbn;
        rewrite Z.sub_diag; intuition (auto; lia)).
  assert (Hcase : attemptOf ev = a \/ In ev tr).
  { cbn in Hin. destruct Hin as [<-|[<-|[<-|Hin]]]; auto.
    apply in_app_or in Hin as [Hin|Hin]; auto.
    left. now destruct (Pause_events HP _ Hin). }
  destruct Hcase as [Ha|Hin'].
  - rewrite Ha. exists e0, []; eexists; cbn.
    rewrite Z.sub_diag; intuition (auto; lia).
  - destruct (IH HR _ Hin') as (e1 & pre & tr' & -> & HR' & Hin'' & Hge & Hargs & Hlt).
    exists e1. eexists. exists tr'. split; [|split; [exact HR'|]].
    + rewrite app_assoc. rewrite (app_assoc _ pre tr'). reflexivity.
    + split; [exact Hin''|]. split; [lia|]. split.
      * rewrite !taskArgs_app. cbn. rewrite (Pause_taskArgs HP), Hargs. cbn.
        replace (Z.to_nat (attemptOf ev - a))
          with (S (Z.to_nat (attemptOf ev - (a + 1)))) by lia.
        reflexivity.
      * intros ev' Hev'. apply in_app_or in Hev' as [Hev'|Hev'].
        -- apply in_app_or in Hev' as [Hev'|Hev'].
           ++ cbn in Hev'. intuition (subst; cbn; lia).
           ++ destruct (Pause_events HP _ Hev') as [-> _]. lia.
        -- apply Hlt in Hev'. lia.
Qed.

(** An event stamped [k] that is no part of a pause, in a pass that goes on
    after attempt [k], is one of the three calls of that attempt. *)
Lemma Continue_In (k : Z) (e v r e' : JsVal) (ws tr : list event)
    (out : completion JsVal) (ev : event) :
  Pause k ws ->
  Run (k + 1) e' tr out ->
  attemptOf ev = k ->
  isPause ev = false ->
  In ev ([EvTask k (Throw e); EvShouldRetry e k (Normal v);
          EvOnRetry e k (Normal r)] ++ ws ++ tr) ->
  ev = EvTask k (Throw e) \/ ev = EvShouldRetry e k (Normal v) \/
  ev = EvOnRetry e k (Normal r).
Proof.
  intros HP HR Hk Hnp Hin. cbn in Hin.
  destruct Hin as [<-|[<-|[<-|Hin]]]; auto.
  apply in_app_or in Hin as [Hin|Hin].
  - destruct (Pause_events HP _ Hin) as [_ Hp]. congruence.
  - pose proof (Run_attempt_ge HR _ Hin). lia.
Qed.

Ltac head_events H :=
  cbn in H;
  repeat (destruct H as [H|H];
          [try discriminate H; try (inversion H; subst; try clear H)|]);
  try contradiction.

(** *** When the loop stops after a failure *)

Lemma Run_stop (a : Z) (e0 : JsVal) (tr : list event)
    (out : completion JsVal) (e : JsVal) (k : Z) (v : JsVal) :
  Run a e0 tr out ->
  In (EvShouldRetry e k (Normal v)) tr ->
  stops cfg v k = true ->
  out = Throw e /\
  (exists pre, tr = pre ++ [EvTask k (Throw e); EvShouldRetry e k (Normal v)]) /\
  taskArgs tr = upto a (Z.to_nat (k + 1 - a)) /\
  (forall ev, In ev tr -> attemptOf ev = k ->
     ev = EvTask k (Throw e) \/ ev = EvShouldRetry e k (Normal v)).
Proof.
  intros HR Hin Hst.
  destruct (Run_reaches HR _ Hin)
    as (e1 & pre & tr' & -> & HR' & Hin' & Hge & Hargs & Hlt).
  cbn [attemptOf] in *.
  inversion HR'; subst; try (head_events Hin'; congruence).
  - head_events Hin'. split; [reflexivity|]. split; [now exists pre|]. split.
    + rewrite taskArgs_app, Hargs. cbn.
      replace (Z.to_nat (k + 1 - a)) with (Z.to_nat (k - a) + 1)%nat by lia.
      rewrite upto_app. cbn. do 2 f_equal. lia.
    + intros ev Hev Hk. apply in_app_or in Hev as [Hev|Hev].
      * apply Hlt in Hev. lia.
      * cbn in Hev. intuition.
  - exfalso.
    match goal with
    | HP : Pause _ _, HR2 : Run (_ + 1)%Z _ _ _ |- _ =>
        destruct (Continue_In (ev := EvShouldRetry e k (Normal v))
                    HP HR2 eq_refl eq_refl Hin') as [Hc|[Hc|Hc]]
    end; try discriminate Hc.
    inversion Hc; subst. congruence.
Qed.

(** *** When the loop goes on after a failure *)

Lemma Run_goes_on (a : Z) (e0 : JsVal) (tr : list event)
    (out : completion JsVal) (e : JsVal) (k : Z) (v : JsVal) :
  Run a e0 tr out ->
  In (EvShouldRetry e k (Normal v)) tr ->
  stops cfg v k = false ->
  exists r, In (EvOnRetry e k r) tr.
Proof.
  intros HR Hin Hst.
  destruct (Run_reaches HR _ Hin)
    as (e1 & pre & tr' & -> & HR' & Hin' & Hge & Hargs & Hlt).
  cbn [attemptOf] in *.
  inversion HR'; subst; try (head_events Hin'; congruence).
  - head_events Hin'. eexists. apply in_or_app. right. cbn. eauto.
  - match goal with
    | HP : Pause _ _, HR2 : Run (_ + 1)%Z _ _ _ |- _ =>
        destruct (Continue_In (ev := EvShouldRetry e k (Normal v))
                    HP HR2 eq_refl eq_refl Hin') as [Hc|[Hc|Hc]]
    end; try discriminate Hc.
    inversion Hc; subst. eexists. apply in_or_app. right. cbn. eauto.
Qed.

(** *** When a hook throws *)

Lemma Run_shouldRetry_throws (a : Z) (e0 : JsVal) (tr : list event)
    (out : completion JsVal) (e : JsVal) (k : Z) (x : JsVal) :
  Run a e0 tr out ->
  In (EvShouldRetry e k (Throw x)) tr ->
  out = Throw x /\
  (exists pre, tr = pre ++ [EvShouldRetry e k (Throw x)]) /\
  taskArgs tr = upto a (Z.to_nat (k + 1 - a)) /\
  In (EvTask k (Throw e)) tr.
Proof.
  intros HR Hin.
  destruct (Run_reaches HR _ Hin)
    as (e1 & pre & tr' & -> & HR' & Hin' & Hge & Hargs & Hlt).
  cbn [attemptOf] in *.
  assert (Hupto : forall l, taskArgs l = [k] ->
            taskArgs (pre ++ l) = upto a (Z.to_nat (k + 1 - a))).
  { intros l Hl. rewrite taskArgs_app, Hargs, Hl.
    replace (Z.to_nat (k + 1 - a)) with (Z.to_nat (k - a) + 1)%nat by lia.
    rewrite upto_app. cbn. do 2 f_equal. lia. }
  inversion HR'; subst tr'; subst; try (head_events Hin'; fail).
  - head_events Hin'. split; [reflexivity|]. split.
    + exists (pre ++ [EvTask k (Throw e)]). now rewrite <- app_assoc.
    + split; [now apply Hupto|]. apply in_or_app. right. cbn. auto.
  - exfalso.
    match goal with
    | HP : Pause _ _, HR2 : Run (_ + 1)%Z _ _ _ |- _ =>
        destruct (Continue_In (ev := EvShouldRetry e k (Throw x))
                    HP HR2 eq_refl eq_refl Hin') as [Hc|[Hc|Hc]]
    end; discriminate Hc.
Qed.

Lemma Run_onRetry_throws (a : Z) (e0 : JsVal) (tr : list event)
    (out : completion JsVal) (e : JsVal) (k : Z) (x : JsVal) :
  Run a e0 tr out ->
  In (EvOnRetry e k (Throw x)) tr ->
  out = Throw x /\
  (exists pre, tr = pre ++ [EvOnRetry e k (Throw x)]) /\
  taskArgs tr = upto a (Z.to_nat (k + 1 - a)) /\
  In (EvTask k (Throw e)) tr.
Proof.
  intros HR Hin.
  destruct (Run_reaches HR _ Hin)
    as (e1 & pre & tr' & -> & HR' & Hin' & Hge & Hargs & Hlt).
  cbn [attemptOf] in *.
  assert (Hupto : forall l, taskArgs l = [k] ->
            taskArgs (pre ++ l) = upto a (Z.to_nat (k + 1 - a))).
  { intros l Hl. rewrite taskArgs_app, Hargs, Hl.
    replace (Z.to_nat (k + 1 - a)) with (Z.to_nat (k - a) + 1)%nat by lia.
    rewrite upto_app. cbn. do 2 f_equal. lia. }
  inversion HR'; subst tr'; subst; try (head_events Hin'; fail).
  - head_events Hin'. split; [reflexivity|]. split.
    + exists (pre ++ [EvTask k (Throw e); EvShouldRetry e k (Normal v)]). now rewrite <- app_assoc.
    + split; [now apply Hupto|]. apply in_or_app. right. cbn. auto.
  - exfalso.
    match goal with
    | HP : Pause _ _, HR2 : Run (_ + 1)%Z _ _ _ |- _ =>
        destruct (Continue_In (ev := EvOnRetry e k (Throw x))
                    HP HR2 eq_refl eq_refl Hin') as [Hc|[Hc|Hc]]
    end; discriminate Hc.
Qed.

(** *** When the task succeeds *)

Lemma Run_success (a : Z) (e0 : JsVal) (tr : list event)
    (out : completion JsVal) (k : Z) (v : JsVal) :
  Run a e0 tr out ->
  In (EvTask k (Normal v)) tr ->
  out = Normal v /\
  exists pre,
    tr = pre ++ [EvTask k (Normal v)] /\
    taskArgs pre = upto a (Z.to_nat (k - a)) /\
    (forall ev, In ev pre -> (a <= attemptOf ev < k)%Z).
Proof.
  intros HR Hin.
  destruct (Run_reaches HR _ Hin)
    as (e1 & pre & tr' & -> & HR' & Hin' & Hge & Hargs & Hlt).
  cbn [attemptOf] in *.
  inversion HR'; subst tr'; subst; try (head_events Hin'; fail).
  - head_events Hin'. split; [reflexivity|]. exists pre.
    split; [reflexivity|]. split; [exact Hargs|].
    intros ev Hev. split; [|now apply Hlt].
    apply (Run_attempt_ge HR). apply in_or_app. now left.
  - exfalso.
    match goal with
    | HP : Pause _ _, HR2 : Run (_ + 1)%Z _ _ _ |- _ =>
        destruct (Continue_In (ev := EvTask k (Normal v))
                    HP HR2 eq_refl eq_refl Hin') as [Hc|[Hc|Hc]]
    end; discriminate Hc.
Qed.

(** *** The calls of the task are numbered consecutively *)

Lemma Run_taskArgs (a : Z) (e0 : JsVal) (tr : list event)
    (out : completion JsVal) :
  Run a e0 tr out ->
  taskArgs tr = upto a (length (taskArgs tr)) /\
  (length (taskArgs tr) <= remaining cfg a)%nat.
Proof.
  induction 1 as [ | a e0 v Hle | a e0 e x Hle | a e0 e v Hle
                 | a e0 e v x Hle
                 | a e0 e v r ws tr out Hle Yt Ys Hst Yo HP HR [IH1 IH2]];
    try (apply Qle_bool_inject in Hle; unfold remaining; cbn; split;
         [reflexivity | lia]).
  - cbn. split; [reflexivity | lia].
  - apply Qle_bool_inject in Hle. unfold remaining in *. cbn.
    rewrite taskArgs_app, (Pause_taskArgs HP). cbn. rewrite <- IH1.
    split; [reflexivity | lia].
Qed.

(** *** What [throw lastError] throws *)

Lemma last_cons_default (A : Type) (x d : A) (l : list A) :
  last (x :: l) d = last l x.
Proof.
  revert x d. induction l as [|y l IH]; intros x d; [reflexivity|].
  change (last (x :: y :: l) d) with (last (y :: l) d).
  now rewrite (IH y d), (IH y x).
Qed.

Lemma Run_rejects_last (a : Z) (e0 : JsVal) (tr : list event)
    (out : completion JsVal) :
  Run a e0 tr out ->
  (forall ev, In ev tr -> hookThrew ev = false) ->
  forall x, out = Throw x -> x = last (caught tr) e0.
Proof.
  induction 1 as [ | | a e0 e x Hle | | a e0 e v x Hle
                 | a e0 e v r ws tr out Hle Yt Ys Hst Yo HP HR IH];
    intros Hno y Hy.
  - now inversion Hy.
  - discriminate Hy.
  - specialize (Hno (EvShouldRetry e a (Throw x))). cbn in Hno.
    discriminate Hno. auto.
  - now inversion Hy.
  - specialize (Hno (EvOnRetry e a (Throw x))). cbn in Hno.
    discriminate Hno. auto.
  - cbn [app caught]. rewrite caught_app, (Pause_caught HP). cbn [app].
    rewrite last_cons_default. apply IH; [|exact Hy].
    intros ev Hev. apply Hno. cbn. do 3 right. apply in_or_app. now right.
Qed.

Lemma Run_caught_nonempty (a : Z) (e0 : JsVal) (tr : list event) (x : JsVal) :
  Run a e0 tr (Throw x) ->
  Qle_bool (inject_Z a) (maxRetries cfg) = true ->
  caught tr <> [].
Proof.
  inversion 1; subst; intros Hle; cbn; congruence.
Qed.

(** *** A task that always fails, under hooks that let the loop go on *)


(** *** Pauses *)

(** A run that logs an event stamped [k] other than the first two calls of
    attempt [k] went on after attempt [k]: the three calls, the pause, and
    the rest of the loop from [k + 1]. *)
Lemma Run_retried (a : Z) (e0 : JsVal) (tr : list event)
    (out : completion JsVal) (ev : event) (k : Z) :
  Run a e0 tr out ->
  In ev tr ->
  attemptOf ev = k ->
  (isPause ev = true \/ exists e r, ev = EvOnRetry e k (Normal r)) ->
  exists pre e v r ws tr2,
    tr = pre ++ [EvTask k (Throw e); EvShouldRetry e k (Normal v);
                 EvOnRetry e k (Normal r)] ++ ws ++ tr2 /\
    (forall ev', In ev' pre -> (attemptOf ev' < k)%Z) /\
    stops cfg v k = false /\
    Pause k ws /\
    Run (k + 1) e tr2 out /\
    (isPause ev = true -> In ev ws) /\
    (isPause ev = false -> ev = EvOnRetry e k (Normal r)).
Proof.
  intros HR Hin Hk Hev.
  destruct (Run_reaches HR _ Hin)
    as (e1 & pre & tr' & -> & HR' & Hin' & Hge & Hargs & Hlt).
  rewrite Hk in HR', Hge, Hargs, Hlt. clear HR Hin.
  revert Hk Hev Hin'.
  inversion HR'; subst tr'; subst; intros Hk Hev Hin';
    try (exfalso; revert Hk; head_events Hin';
         destruct Hev as [Hev | (e' & r' & Hev)]; cbn in Hev;
         discriminate Hev).
  match goal with
  | HP : Pause _ _, HR2 : Run (_ + 1)%Z _ _ _, Hs : stops _ _ _ = false |- _ =>
      rename HP into HP'; rename HR2 into HR2'; rename Hs into Hs'
  end.
  exists pre, e, v, r, ws, tr. repeat split; trivial.
  - intros Hp. cbn in Hin'.
    destruct Hin' as [<-|[<-|[<-|Hin']]]; try discriminate Hp.
    apply in_app_or in Hin' as [Hin'|Hin']; [exact Hin'|].
    pose proof (Run_attempt_ge HR2' _ Hin'). lia.
  - intros Hp.
    destruct (Continue_In HP' HR2' Hk Hp Hin') as [Hc|[Hc|Hc]];
      destruct Hev as [Hev | (e' & r' & Hev)]; try congruence.
Qed.

(** Events stamped [k] of a run that went on after attempt [k]. *)
Lemma retried_In (pre ws tr2 : list event) (k : Z) (e v r : JsVal)
    (out : completion JsVal) (ev : event) :
  (forall ev', In ev' pre -> (attemptOf ev' < k)%Z) ->
  Run (k + 1) e tr2 out ->
  attemptOf ev = k ->
  In ev (pre ++ [EvTask k (Throw e); EvShouldRetry e k (Normal v);
                 EvOnRetry e k (Normal r)] ++ ws ++ tr2) ->
  In ev [EvTask k (Throw e); EvShouldRetry e k (Normal v);
         EvOnRetry e k (Normal r)] \/ In ev ws.
Proof.
  intros Hlt HR Hk Hin.
  apply in_app_or in Hin as [Hin|Hin]; [apply Hlt in Hin; lia|].
  apply in_app_or in Hin as [Hin|Hin]; [now left|].
  apply in_app_or in Hin as [Hin|Hin]; [now right|].
  pose proof (Run_attempt_ge HR _ Hin). lia.
Qed.

(** Every timer a run sets is set for the computed wait of its attempt, and
    only when that is positive. *)
Lemma Run_timer (a : Z) (e0 : JsVal) (tr : list event)
    (out : completion JsVal) (k : Z) (ms : Q) :
  Run a e0 tr out ->
  In (EvSetTimeout k ms) tr ->
  0 < ms /\
  exists u,
    ms = computedWait cfg k u /\
    (jitterApplies (rawWait (baseDelay cfg) (backoffFactor cfg) k) (jitter cfg)
     = true -> In (EvRandom k u) tr /\ draws Math_random u).
Proof.
  intros HR Hin.
  destruct (Run_retried HR Hin eq_refl (or_introl eq_refl))
    as (pre & e & v & r & ws & tr2 & -> & Hlt & Hst & HP & HR2 & Hws & _).
  cbn [attemptOf] in *. specialize (Hws eq_refl). unfold computedWait.
  assert (Hpos : forall w, In (EvSetTimeout k ms) (timer k w) ->
                           0 < ms /\ ms = w).
  { intros w. unfold timer. destruct (Qltb 0 w) eqn:Hw; [|contradiction].
    intros [Hc|[]]. inversion Hc; subst. split; [|reflexivity].
    unfold Qltb in Hw. apply negb_true_iff in Hw.
    apply Qnot_le_lt. intros Hc'. apply Qle_bool_iff in Hc'. congruence. }
  inversion HP as [Hj Heq | u Hj Hd Heq]; subst ws.
  - destruct (Hpos _ Hws) as [H1 H2]. split; [exact H1|].
    exists 0. rewrite Hj. split; [exact H2 | discriminate].
  - destruct Hws as [Hc|Hws]; [discriminate Hc|].
    destruct (Hpos _ Hws) as [H1 H2]. split; [exact H1|].
    exists u. rewrite Hj. split; [exact H2|]. intros _. split; [|exact Hd].
    apply in_or_app. right. cbn. do 3 right. now left.
Qed.

(** After a retried attempt [k]: the computed wait decides whether a timer
    is set, and the loop goes on with [k + 1]. *)
Lemma Run_after_retry (a : Z) (e0 : JsVal) (tr : list event)
    (out : completion JsVal) (e : JsVal) (k : Z) (r : JsVal) :
  Run a e0 tr out ->
  In (EvOnRetry e k (Normal r)) tr ->
  exists u,
    (if jitterApplies (rawWait (baseDelay cfg) (backoffFactor cfg) k)
          (jitter cfg)
     then In (EvRandom k u) tr /\ draws Math_random u
     else forall u', ~ In (EvRandom k u') tr) /\
    (forall u', In (EvRandom k u') tr -> u' = u) /\
    (0 < computedWait cfg k u ->
       In (EvSetTimeout k (computedWait cfg k u)) tr) /\
    (computedWait cfg k u <= 0 -> forall ms, ~ In (EvSetTimeout k ms) tr) /\
    (Qle_bool (inject_Z (k + 1)) (maxRetries cfg) = true ->
       exists r', In (EvTask (k + 1) r') tr).
Proof.
  intros HR Hin.
  destruct (Run_retried HR Hin eq_refl
              (or_intror (ex_intro _ e (ex_intro _ r eq_refl))))
    as (pre & e' & v & r' & ws & tr2 & -> & Hlt & Hst & HP & HR2 & _ & Hev).
  cbn [attemptOf] in *. specialize (Hev eq_refl). inversion Hev; subst e' r'.
  clear Hev.
  assert (Hloc : forall ev, attemptOf ev = k -> isPause ev = true ->
            In ev (pre ++ [EvTask k (Throw e); EvShouldRetry e k (Normal v);
                           EvOnRetry e k (Normal r)] ++ ws ++ tr2) ->
            In ev ws).
  { intros ev Hk Hp Hev. destruct (retried_In pre ws v r ev Hlt HR2 Hk Hev) as [Hc|Hc];
      [|exact Hc].
    cbn in Hc. destruct Hc as [<-|[<-|[<-|[]]]]; discriminate Hp. }
  assert (Hglob : forall ev, In ev ws ->
            In ev (pre ++ [EvTask k (Throw e); EvShouldRetry e k (Normal v);
                           EvOnRetry e k (Normal r)] ++ ws ++ tr2)).
  { intros ev Hev. apply in_or_app. right. apply in_or_app. right.
    apply in_or_app. now left. }
  assert (Hnext : Qle_bool (inject_Z (k + 1)) (maxRetries cfg) = true ->
            exists r', In (EvTask (k + 1) r')
              (pre ++ [EvTask k (Throw e); EvShouldRetry e k (Normal v);
                       EvOnRetry e k (Normal r)] ++ ws ++ tr2)).
  { intros Hle.
    assert (exists r', In (EvTask (k + 1) r') tr2) as [r' Hr'].
    { inversion HR2; subst; try congruence; eexists; cbn; eauto. }
    exists r'. apply in_or_app. right. apply in_or_app. right.
    apply in_or_app. now right. }
  assert (Htimer : forall w ms, In (EvSetTimeout k ms) (timer k w) ->
            ms = w /\ 0 < w).
  { intros w ms. unfold timer. destruct (Qltb 0 w) eqn:Hw; [|contradiction].
    intros [Hc|[]]. inversion Hc; subst. split; [reflexivity|].
    unfold Qltb in Hw. apply negb_true_iff in Hw.
    apply Qnot_le_lt. intros Hc'. apply Qle_bool_iff in Hc'. congruence. }
  assert (Htimer' : forall w, 0 < w -> In (EvSetTimeout k w) (timer k w)).
  { intros w Hw. unfold timer, Qltb.
    destruct (Qle_bool w 0) eqn:Hc; cbn; [|now left].
    apply Qle_bool_iff in Hc. exfalso. now apply (Qlt_not_le _ _ Hw). }
  unfold computedWait.
  inversion HP as [Hj Heq | u Hj Hd Heq]; subst ws; rewrite Hj.
  - exists 0. split; [|split; [|split; [|split]]]; trivial.
    + intros u' Hu'. apply Hloc in Hu'; trivial.
      unfold timer in Hu'. destruct (Qltb 0 _); cbn in Hu'; intuition discriminate.
    + intros u' Hu'. apply Hloc in Hu'; trivial.
      unfold timer in Hu'. destruct (Qltb 0 _); cbn in Hu'; intuition discriminate.
    + intros Hw. apply Hglob. now apply Htimer'.
    + intros Hw ms Hms. apply Hloc in Hms; trivial.
      apply Htimer in Hms as [_ Hms]. now apply (Qlt_not_le _ _ Hms).
  - exists u. split; [|split; [|split; [|split]]]; trivial.
    + split; [|exact Hd]. apply Hglob. now left.
    + intros u' Hu'. apply Hloc in Hu'; trivial.
      destruct Hu' as [Hc|Hu']; [now inversion Hc|].
      unfold timer in Hu'. destruct (Qltb 0 _); cbn in Hu'; intuition discriminate.
    + intros Hw. apply Hglob. right. now apply Htimer'.
    + intros Hw ms Hms. apply Hloc in Hms; trivial.
      destruct Hms as [Hc|Hms]; [discriminate Hc|].
      apply Htimer in Hms as [_ Hms]. now apply (Qlt_not_le _ _ Hms).
Qed.

(** *** Where a thrown value comes from *)

Lemma Run_throw_origin (a : Z) (e0 : JsVal) (tr : list event)
    (out : completion JsVal) :
  Run a e0 tr out ->
  forall x, out = Throw x ->
  (x = e0 /\ tr = []) \/ exists ev, In ev tr /\ thrownBy ev = Some x.
Proof.
  induction 1 as [ | | a e0 e x Hle | a e0 e v Hle | a e0 e v x Hle
                 | a e0 e v r ws tr out Hle Yt Ys Hst Yo HP HR IH];
    intros y Hy; try discriminate Hy; inversion Hy; subst.
  - now left.
  - right. exists (EvShouldRetry e a (Throw y)). cbn. auto.
  - right. exists (EvTask a (Throw y)). cbn. auto.
  - right. exists (EvOnRetry e a (Throw y)). cbn. auto.
  - right. destruct (IH y eq_refl) as [[-> ->] | (ev & Hev & Hx)].
    + exists (EvTask a (Throw e)). cbn. auto.
    + exists ev. split; [|exact Hx]. cbn. do 3 right.
      apply in_or_app. now right.
Qed.

End LoopFacts.

(** ** From [retryMini] to [Run] *)

Lemma retryMini_Run (W : Type) (Math_random : W -> Q * W) (task : Task W)
    (options : option (Options W)) (w : W) :
  Run Math_random task (resolve options) 0 JUndefined
    (events (retryMini Math_random task options w))
    (outcome (retryMini Math_random task options w)).
Proof.
  unfold retryMini, execute, events, outcome.
  destruct (loop_run Math_random task (resolve options) 0
              (mkState w JUndefined [])) as (tr & Htr & HR).
  destruct (loop Math_random task (resolve options) 0 (mkState w JUndefined []))
    as [r s]. cbn in *. now rewrite Htr.
Qed.

Lemma Run_nonneg_start (W : Type) (Math_random : W -> Q * W) (task : Task W)
    (cfg : Config W) (e0 : JsVal) (tr : list event) (out : completion JsVal)
    (ev : event) :
  Run Math_random task cfg 0 e0 tr out -> In ev tr ->
  Z.to_nat (attemptOf ev + 1 - 0) = (Z.to_nat (attemptOf ev) + 1)%nat.
Proof.
  intros HR Hin. pose proof (Run_attempt_ge HR _ Hin). lia.
Qed.

(** The invariant of the attempt counter: in every call the task is called
    for [0, 1, 2, ...] in this order, at most [floor(maxRetries) + 1] times. *)
Corollary attempts_numbered_and_bounded (W : Type) (Math_random : W -> Q * W)
    (task : Task W) (options : option (Options W)) (w : W) :
  taskArgs (events (retryMini Math_random task options w))
  = upto 0 (length (taskArgs (events (retryMini Math_random task options w))))
  /\
  (length (taskArgs (events (retryMini Math_random task options w)))
   <= Z.to_nat (Qfloor (maxRetries (resolve options)) + 1))%nat.
Proof.
  destruct (Run_taskArgs (retryMini_Run Math_random task options w))
    as [Hargs Hlen].
  split; [exact Hargs|]. unfold remaining in Hlen.
  now rewrite Z.sub_0_r in Hlen.
Qed.

(** ** Runs of the test suite *)

Example scenario_permanent :
  call_permanent
  = (Throw (JStr "Permanent Failure"), 3%nat,
     [EvTask 0 (Throw (JStr "Permanent Failure"));
      EvShouldRetry (JStr "Permanent Failure") 0 (Normal (JBool true));
      EvOnRetry (JStr "Permanent Failure") 0 (Normal JUndefined);
      EvTask 1 (Throw (JStr "Permanent Failure"));
      EvShouldRetry (JStr "Permanent Failure") 1 (Normal (JBool true));
      EvOnRetry (JStr "Permanent Failure") 1 (Normal JUndefined);
      EvTask 2 (Throw (JStr "Permanent Failure"));
      EvShouldRetry (JStr "Permanent Failure") 2 (Normal (JBool true))]).
Proof. vm_compute. reflexivity. Qed.

Example scenario_backoff :
  events call_backoff
  = [EvTask 0 (Throw (JStr "Fail"));
     EvShouldRetry (JStr "Fail") 0 (Normal (JBool true));
     EvOnRetry (JStr "Fail") 0 (Normal JUndefined);
     EvSetTimeout 0 100;
     EvTask 1 (Throw (JStr "Fail"));
     EvShouldRetry (JStr "Fail") 1 (Normal (JBool true));
     EvOnRetry (JStr "Fail") 1 (Normal JUndefined);
     EvSetTimeout 1 200;
     EvTask 2 (Throw (JStr "Fail"));
     EvShouldRetry (JStr "Fail") 2 (Normal (JBool true));
     EvOnRetry (JStr "Fail") 2 (Normal JUndefined);
     EvSetTimeout 2 400;
     EvTask 3 (Throw (JStr "Fail"));
     EvShouldRetry (JStr "Fail") 3 (Normal (JBool true))].
Proof. vm_compute. reflexivity. Qed.

Example scenario_jitter_low :
  events (call_jitter (1 # 2) 0)
  = [EvTask 0 (Throw (JStr "Fail"));
     EvShouldRetry (JStr "Fail") 0 (Normal (JBool true));
     EvOnRetry (JStr "Fail") 0 (Normal JUndefined);
     EvRandom 0 0;
     EvSetTimeout 0 50;
     EvTask 1 (Normal (JStr "Done"))].
Proof. vm_compute. reflexivity. Qed.

Example scenario_jitter_two :
  events (call_jitter 2 0)
  = [EvTask 0 (Throw (JStr "Fail"));
     EvShouldRetry (JStr "Fail") 0 (Normal (JBool true));
     EvOnRetry (JStr "Fail") 0 (Normal JUndefined);
     EvRandom 0 0;
     EvTask 1 (Normal (JStr "Done"))].
Proof. vm_compute. reflexivity. Qed.

(** [baseDelay] 90, [jitter] 0.3, [Math.random] mocked to 0: both pauses
    are of 62 ms. *)
Example scenario_jitter_rounding :
  timers (events (call_paused 90 1 (3 # 10) 0)) = [(0%Z, 62); (1%Z, 62)].
Proof. vm_compute. reflexivity. Qed.

(** [baseDelay] 100, [jitter] 0.5, [Math.random] at its largest: 150 ms. *)
Example scenario_jitter_largest_draw :
  timers (events (call_jitter (1 # 2) largest_draw)) = [(0%Z, 150)].
Proof. vm_compute. reflexivity. Qed.

(** [baseDelay] 2, [jitter] 0.64, [Math.random] mocked to 7/64: pauses of
    1 ms. *)
Example scenario_jitter_one :
  timers (events (call_paused 2 1 (64 # 100) (7 # 64)))
  = [(0%Z, 1); (1%Z, 1)].
Proof. vm_compute. reflexivity. Qed.

(** [baseDelay] 4.35, [backoffFactor] 100, [jitter] 0.5, [Math.random]
    mocked to 0.5: pauses of 4 and of 434 ms. *)
Example scenario_jitter_backoff :
  timers (events (call_paused (435 # 100) 100 (1 # 2) (1 # 2)))
  = [(0%Z, 4); (1%Z, 434)].
Proof. vm_compute. reflexivity. Qed.

(** * The claims *)



(** C2. If the task succeeds on attempt 0, the call resolves with exactly
    the value the task returned, after one call of the task and nothing
    else: no timer, no [shouldRetry], no [onRetry]. This holds of every run
    in which attempt 0 succeeds, whatever [maxRetries] is; and whenever
    [maxRetries >= 0] a task that returns at attempt 0 gives such a run. *)
Theorem success_on_first_attempt (W : Type) (Math_random : W -> Q * W)
    (task : Task W) (options : option (Options W)) (w : W) (v : JsVal)
    (R : completion JsVal * W * list event) :
  R = retryMini Math_random task options w ->
  (In (EvTask 0 (Normal v)) (events R) ->
   outcome R = Normal v /\ events R = [EvTask 0 (Normal v)]) /\
  (forall w', 0 <= maxRetries (resolve options) ->
              task 0%Z w = (Normal v, w') ->
              R = (Normal v, w', [EvTask 0 (Normal v)])).
Proof.
  intros ->. split.
  - intros Hin.
    pose proof (retryMini_Run Math_random task options w) as HR.
    destruct (Run_success 0 v HR Hin) as (Hout & pre & Htr & _ & Hpre).
    split; [exact Hout|]. rewrite Htr.
    destruct pre as [|ev pre]; [reflexivity|].
    specialize (Hpre ev (or_introl eq_refl)). lia.
  - intros w' Hmax Ht. unfold retryMini, execute.
    rewrite loop_eq.
    assert (Hle : Qle_bool (inject_Z 0) (maxRetries (resolve options)) = true)
      by now apply Qle_bool_iff.
    rewrite Hle. unfold body, try_catch, bind, await, ret. cbn.
    rewrite Ht. reflexivity.
Qed.

(** The first test of the suite: [mockResolvedValue('success')], here with
    no retry allowed. *)
Lemma success_on_first_attempt_witness :
  (In (EvTask 0 (Normal (JStr "success"))) (events call_success) ->
   outcome call_success = Normal (JStr "success") /\
   events call_success = [EvTask 0 (Normal (JStr "success"))]) /\
  call_success
  = (Normal (JStr "success"), 1%nat, [EvTask 0 (Normal (JStr "success"))]).
Proof.
  pose proof (@success_on_first_attempt nat (randomConst 0)
                (rejectsThen 0 "never" (JStr "success"))
                (opts (Some 0) None None None None None) O
                (JStr "success") call_success eq_refl) as [H1 H2].
  split; [exact H1|].
  apply (H2 1%nat); [discriminate | reflexivity].
Defined.

(** C3. If on attempt [k] the task fails with [e] and [shouldRetry] returns
    [v], where [v] is [false] or [k] equals [maxRetries], then the loop
    stops there: the call fails with [e], the task has been called exactly
    [k + 1] times (for [0, ..., k]), the failed call and the call of
    [shouldRetry] are the last two events, and nothing else is stamped [k]:
    no [onRetry], no draw, no timer. *)
Theorem stop_on_veto_or_last_attempt (W : Type) (Math_random : W -> Q * W)
    (task : Task W) (options : option (Options W)) (w : W)
    (e : JsVal) (k : Z) (v : JsVal)
    (R : completion JsVal * W * list event) :
  R = retryMini Math_random task options w ->
  In (EvShouldRetry e k (Normal v)) (events R) ->
  v = JBool false \/ inject_Z k == maxRetries (resolve options) ->
  outcome R = Throw e /\
  taskArgs (events R) = upto 0 (Z.to_nat k + 1) /\
  length (taskArgs (events R)) = (Z.to_nat k + 1)%nat /\
  (exists pre,
     events R = pre ++ [EvTask k (Throw e); EvShouldRetry e k (Normal v)]) /\
  (forall ev, In ev (events R) -> attemptOf ev = k ->
     ev = EvTask k (Throw e) \/ ev = EvShouldRetry e k (Normal v)).
Proof.
  intros -> Hin Hv.
  pose proof (retryMini_Run Math_random task options w) as HR.
  assert (Hst : stops (resolve options) v k = true).
  { unfold stops. destruct Hv as [-> | Hk]; [reflexivity|].
    apply orb_true_iff. right. now apply Qeq_bool_iff. }
  destruct (Run_stop e k v HR Hin Hst) as (Hout & Hpre & Hargs & Honly).
  rewrite (Run_nonneg_start _ HR Hin : Z.to_nat (k + 1 - 0) = _) in Hargs.
  repeat split; trivial. rewrite Hargs. apply upto_length.
Qed.

(** The veto test of the suite: [shouldRetry] returns [false] on attempt 0
    of 5. *)
Lemma stop_on_veto_or_last_attempt_witness :
  outcome call_veto = Throw (JStr "Fatal Error") /\
  taskArgs (events call_veto) = [0%Z] /\
  length (taskArgs (events call_veto)) = 1%nat /\
  (exists pre,
     events call_veto
     = pre ++ [EvTask 0 (Throw (JStr "Fatal Error"));
               EvShouldRetry (JStr "Fatal Error") 0 (Normal (JBool false))]) /\
  (forall ev, In ev (events call_veto) -> attemptOf ev = 0%Z ->
     ev = EvTask 0 (Throw (JStr "Fatal Error")) \/
     ev = EvShouldRetry (JStr "Fatal Error") 0 (Normal (JBool false))).
Proof.
  apply (@stop_on_veto_or_last_attempt nat (randomConst 0)
           (alwaysFails "Fatal Error")
           (opts (Some 5) None None None (Some (hookReturns (JBool false))) None)
           O (JStr "Fatal Error") 0 (JBool false) call_veto).
  - reflexivity.
  - vm_compute. right. left. reflexivity.
  - left. reflexivity.
Defined.




(** C5. When the call fails and no hook has thrown (so it fails by
    exhaustion or by a veto of [shouldRetry]), with [maxRetries >= 0], the
    value it fails with is the last failure of the task that was caught:
    the very value the task threw, not one made up by the orchestrator. *)
Theorem failure_is_last_caught (W : Type) (Math_random : W -> Q * W)
    (task : Task W) (options : option (Options W)) (w : W) (x : JsVal)
    (R : completion JsVal * W * list event) :
  R = retryMini Math_random task options w ->
  0 <= maxRetries (resolve options) ->
  (forall ev, In ev (events R) -> hookThrew ev = false) ->
  outcome R = Throw x ->
  (exists pre, caught (events R) = pre ++ [x]) /\
  (exists k, In (EvTask k (Throw x)) (events R)).
Proof.
  intros -> Hmax Hno Hout.
  pose proof (retryMini_Run Math_random task options w) as HR.
  set (R := retryMini Math_random task options w) in *.
  pose proof (Run_rejects_last HR Hno Hout) as Hlast.
  rewrite Hout in HR.
  assert (Hne : caught (events R) <> []).
  { apply (Run_caught_nonempty HR). now apply Qle_bool_iff. }
  assert (Hpre : exists pre, caught (events R) = pre ++ [x]).
  { exists (removelast (caught (events R))). rewrite Hlast.
    now apply app_removelast_last. }
  split; [exact Hpre|].
  destruct Hpre as [pre Hpre].
  assert (Hin : In x (caught (events R)))
    by (rewrite Hpre; apply in_or_app; right; now left).
  clear - Hin. induction (events R) as [|ev tr IH]; [contradiction|].
  destruct ev as [k [v|e] | | | |]; cbn in Hin;
    try (destruct (IH Hin) as [k' Hk']; exists k'; now right).
  destruct Hin as [<- | Hin].
  - exists k. now left.
  - destruct (IH Hin) as [k' Hk']. exists k'. now right.
Qed.

(** The scenario of the suite: three rejections with "Permanent Failure",
    and this is what the caller gets. *)
Lemma failure_is_last_caught_witness :
  (exists pre, caught (events call_permanent)
               = pre ++ [JStr "Permanent Failure"]) /\
  (exists k, In (EvTask k (Throw (JStr "Permanent Failure")))
               (events call_permanent)).
Proof.
  apply (@failure_is_last_caught nat (randomConst 0)
           (alwaysFails "Permanent Failure")
           (opts (Some 2) (Some 0) None None None None) O
           (JStr "Permanent Failure") call_permanent).
  - reflexivity.
  - discriminate.
  - vm_compute. intros ev H.
    repeat (destruct H as [H|H]; [subst ev; reflexivity|]). contradiction.
  - vm_compute. reflexivity.
Defined.

(** C9. When [shouldRetry] or [onRetry] throws [x] on attempt [k], the call
    fails with [x] itself: the hook's call is the last event, the task is not
    called again (it has been called for [0, ..., k] only), and the failure
    [e] of the task on attempt [k] is not what the caller gets. *)
Theorem hook_failure_propagates (W : Type) (Math_random : W -> Q * W)
    (task : Task W) (options : option (Options W)) (w : W)
    (ev : event) (e : JsVal) (k : Z) (x : JsVal)
    (R : completion JsVal * W * list event) :
  R = retryMini Math_random task options w ->
  ev = EvShouldRetry e k (Throw x) \/ ev = EvOnRetry e k (Throw x) ->
  In ev (events R) ->
  outcome R = Throw x /\
  (exists pre, events R = pre ++ [ev]) /\
  taskArgs (events R) = upto 0 (Z.to_nat k + 1) /\
  In (EvTask k (Throw e)) (events R).
Proof.
  intros -> Hev Hin.
  pose proof (retryMini_Run Math_random task options w) as HR.
  assert (Hk : Z.to_nat (k + 1 - 0) = (Z.to_nat k + 1)%nat).
  { pose proof (Run_attempt_ge HR _ Hin) as Hge.
    destruct Hev; subst ev; cbn in Hge; lia. }
  rewrite <- Hk.
  destruct Hev; subst ev.
  - exact (Run_shouldRetry_throws e k x HR Hin).
  - exact (Run_onRetry_throws e k x HR Hin).
Qed.

(** An [onRetry] that throws on the first failure, with five retries
    allowed. *)
Lemma hook_failure_propagates_witness :
  outcome call_onRetry_throws = Throw (JStr "Hook") /\
  (exists pre, events call_onRetry_throws
               = pre ++ [EvOnRetry (JStr "Task") 0 (Throw (JStr "Hook"))]) /\
  taskArgs (events call_onRetry_throws) = [0%Z] /\
  In (EvTask 0 (Throw (JStr "Task"))) (events call_onRetry_throws).
Proof.
  apply (@hook_failure_propagates nat (randomConst 0) (alwaysFails "Task")
           (opts (Some 5) None None None None (Some (hookThrows (JStr "Hook"))))
           O (EvOnRetry (JStr "Task") 0 (Throw (JStr "Hook")))
           (JStr "Task") 0 (JStr "Hook") call_onRetry_throws).
  - reflexivity.
  - right. reflexivity.
  - vm_compute. do 2 right. left. reflexivity.
Defined.

(** C10. With [maxRetries < 0] the body of the loop never runs: no call of
    the task or of a hook, no timer, the world untouched, and the call fails
    with [undefined], the value of the never assigned [lastError]. *)
Theorem negative_maxRetries (W : Type) (Math_random : W -> Q * W)
    (task : Task W) (options : option (Options W)) (w : W) :
  maxRetries (resolve options) < 0 ->
  retryMini Math_random task options w = (Throw JUndefined, w, []).
Proof.
  intros Hneg. unfold retryMini, execute. rewrite loop_eq.
  assert (Hle : Qle_bool (inject_Z 0) (maxRetries (resolve options)) = false).
  { destruct (Qle_bool _ _) eqn:Hc; [|reflexivity].
    apply Qle_bool_iff in Hc. exfalso. now apply (Qlt_not_le _ _ Hneg). }
  rewrite Hle. reflexivity.
Qed.

Lemma negative_maxRetries_witness :
  call_negative = (Throw JUndefined, 7%nat, []).
Proof.
  apply (@negative_maxRetries nat (randomConst 0)
           (rejectsThen 0 "never" (JStr "success"))
           (opts (Some (-1)) None None None None None) 7%nat).
  reflexivity.
Defined.

(** C6, amended. On a failed attempt [k] before the final one, what
    [shouldRetry] returned is read as [!(r ?? true)]: [undefined], [null]
    and every truthy value let the loop go on to [onRetry]; every other
    falsy value stops it, [false] and also [0], [NaN] and the empty string.
    An unset [shouldRetry] is the function that always returns [true]. *)
Theorem shouldRetry_result_read_by_truthiness (W : Type)
    (Math_random : W -> Q * W) (task : Task W)
    (options : option (Options W)) (w : W) (e : JsVal) (k : Z) (v : JsVal)
    (R : completion JsVal * W * list event) :
  R = retryMini Math_random task options w ->
  In (EvShouldRetry e k (Normal v)) (events R) ->
  ~ inject_Z k == maxRetries (resolve options) ->
  (ToBoolean (nullish v (JBool true)) = true ->
     exists r, In (EvOnRetry e k r) (events R)) /\
  (ToBoolean (nullish v (JBool true)) = false ->
     outcome R = Throw e /\
     (exists pre,
        events R = pre ++ [EvTask k (Throw e); EvShouldRetry e k (Normal v)]) /\
     (forall r, ~ In (EvOnRetry e k r) (events R))) /\
  (v = JUndefined \/ v = JNull \/ v = JBool true \/ (exists o, v = JObj o) ->
     ToBoolean (nullish v (JBool true)) = true) /\
  (v = JBool false \/ v = JNum 0 \/ v = JNaN \/ v = JStr EmptyString ->
     ToBoolean (nullish v (JBool true)) = false) /\
  (opt_shouldRetry (field options noOptions) = None ->
     shouldRetry (resolve options) = @defaultShouldRetry W).
Proof.
  intros -> Hin Hk.
  pose proof (retryMini_Run Math_random task options w) as HR.
  assert (Hst : stops (resolve options) v k
                = negb (ToBoolean (nullish v (JBool true)))).
  { unfold stops. destruct (Qeq_bool _ _) eqn:Hq; [|apply orb_false_r].
    apply Qeq_bool_iff in Hq. contradiction. }
  split; [|split; [|split; [|split]]].
  - intros Ht. rewrite Ht in Hst. exact (Run_goes_on e k v HR Hin Hst).
  - intros Ht. rewrite Ht in Hst.
    destruct (Run_stop e k v HR Hin Hst) as (Hout & Hpre & _ & Honly).
    split; [exact Hout|]. split; [exact Hpre|].
    intros r Hr. destruct (Honly _ Hr eq_refl) as [Hc|Hc]; discriminate Hc.
  - intros [-> | [-> | [-> | [o ->]]]]; reflexivity.
  - intros [-> | [-> | [-> | ->]]]; reflexivity.
  - intros Hnone. unfold resolve. cbn. now rewrite Hnone.
Qed.

(** The veto test of the suite, read by this theorem. *)
Lemma shouldRetry_result_read_by_truthiness_witness :
  outcome call_veto = Throw (JStr "Fatal Error") /\
  (exists pre,
     events call_veto
     = pre ++ [EvTask 0 (Throw (JStr "Fatal Error"));
               EvShouldRetry (JStr "Fatal Error") 0 (Normal (JBool false))]) /\
  (forall r, ~ In (EvOnRetry (JStr "Fatal Error") 0 r) (events call_veto)).
Proof.
  destruct (@shouldRetry_result_read_by_truthiness nat (randomConst 0)
              (alwaysFails "Fatal Error")
              (opts (Some 5) None None None (Some (hookReturns (JBool false)))
                 None)
              O (JStr "Fatal Error") 0 (JBool false) call_veto eq_refl)
    as (_ & Hstop & _).
  - vm_compute. right. left. reflexivity.
  - discriminate.
  - apply Hstop. reflexivity.
Defined.

(** C6 as stated fails: a [shouldRetry] that returns the number [0], which
    is not [false], stops the loop on attempt 0 of 5. *)
Lemma shouldRetry_result_read_by_truthiness_counterexample :
  JNum 0 <> JBool false /\
  ~ inject_Z 0 == 5 /\
  call_zero
  = (Throw (JStr "Fatal Error"), 1%nat,
     [EvTask 0 (Throw (JStr "Fatal Error"));
      EvShouldRetry (JStr "Fatal Error") 0 (Normal (JNum 0))]).
Proof.
  split; [discriminate|]. split; [discriminate|].
  vm_compute. reflexivity.
Qed.

(** C7, amended. With [baseDelay = 100] and [jitter = 0.5] the computed
    wait of attempt 0 is [Math.floor(100 * (1 + (u * 2 - 1) * 0.5))] for the
    number [u] drawn: it lies in [[50, 150]] for every [u] in [[0, 1)]; it is
    exactly 50 at [u = 0], the minimum of [Math.random], and exactly 150 at
    its maximum, the largest binary64 number below 1; at the near-maximum
    [u = 0.9999] of the test suite it is 149. Every timer a run sets for
    attempt 0 is within [[50, 150]] when [Math.random] stays in [[0, 1)]. *)
Theorem jitter_half_bounds (W : Type) (Math_random : W -> Q * W)
    (task : Task W) (options : option (Options W)) (w : W)
    (R : completion JsVal * W * list event) :
  R = retryMini Math_random task options w ->
  baseDelay (resolve options) == 100 ->
  jitter (resolve options) == 1 # 2 ->
  (forall u, 0 <= u -> u < 1 ->
     50 <= computedWait (resolve options) 0 u /\
     computedWait (resolve options) 0 u <= 150) /\
  computedWait (resolve options) 0 0 == 50 /\
  computedWait (resolve options) 0 largest_draw == 150 /\
  computedWait (resolve options) 0 (9999 # 10000) == 149 /\
  ((forall w0, 0 <= fst (Math_random w0) /\ fst (Math_random w0) < 1) ->
   forall ms, In (EvSetTimeout 0 ms) (events R) -> 50 <= ms /\ ms <= 150).
Proof.
  intros -> Hbd Hj.
  set (cfg := resolve options) in *.
  assert (Hraw : rawWait (baseDelay cfg) (backoffFactor cfg) 0 == 100)
    by (rewrite rawWait_first; exact Hbd).
  assert (Hja : jitterApplies (rawWait (baseDelay cfg) (backoffFactor cfg) 0)
                  (jitter cfg) = true).
  { unfold jitterApplies. apply andb_true_iff. split; apply Qltb_true_iff.
    - rewrite Hraw. reflexivity.
    - rewrite Hj. reflexivity. }
  assert (Hraw64 : rawWait64 (baseDelay cfg) (backoffFactor cfg) 0 == 100).
  { rewrite rawWait64_first, (fl_comp Hbd). exact_double. }
  assert (Hcw : forall u, computedWait cfg 0 u = jittered 100 (1 # 2) u).
  { intros u. unfold computedWait. rewrite Hja.
    exact (jittered_comp u Hraw64 Hj). }
  assert (Hbounds : forall u, 0 <= u -> u < 1 ->
            50 <= computedWait cfg 0 u /\ computedWait cfg 0 u <= 150).
  { intros u Hu0 Hu1. rewrite Hcw.
    apply (jittered_half (Qeq_refl 100) (Qeq_refl (1 # 2))).
    split; [exact Hu0 | now apply Qlt_le_weak]. }
  split; [exact Hbounds|]. split; [|split; [|split]].
  - rewrite Hcw. vm_compute. reflexivity.
  - rewrite Hcw. vm_compute. reflexivity.
  - rewrite Hcw. vm_compute. reflexivity.
  - intros Hrange ms Hms.
    pose proof (retryMini_Run Math_random task options w) as HR.
    destruct (Run_timer 0 ms HR Hms) as (_ & u & -> & Hu).
    destruct (Hu Hja) as (_ & w0 & <-).
    destruct (Hrange w0) as [Hu0 Hu1]. now apply Hbounds.
Qed.

(** The two jitter tests of the suite, [Math.random] mocked to 0 and to
    0.9999, and the two ends of what [Math.random] can return. *)
Lemma jitter_half_bounds_witness :
  (50 <= computedWait (resolve (opts_jitter (1 # 2))) 0 (1 # 3) /\
   computedWait (resolve (opts_jitter (1 # 2))) 0 (1 # 3) <= 150) /\
  computedWait (resolve (opts_jitter (1 # 2))) 0 0 == 50 /\
  computedWait (resolve (opts_jitter (1 # 2))) 0 largest_draw == 150 /\
  computedWait (resolve (opts_jitter (1 # 2))) 0 (9999 # 10000) == 149.
Proof.
  pose proof (@jitter_half_bounds nat (randomConst 0)
                (rejectsThen 1 "Fail" (JStr "Done")) (opts_jitter (1 # 2)) O
                (call_jitter (1 # 2) 0) eq_refl (Qeq_refl 100)
                (Qeq_refl (1 # 2))) as (Hb & Hlo & Hmax & Hhi & _).
  split; [|split; [exact Hlo | split; [exact Hmax | exact Hhi]]].
  apply (Hb (1 # 3)); [discriminate | reflexivity].
Defined.

(** C7 as stated fails for a draw that is only near the maximum: with
    [Math.random] at 0.9999, as the test suite has it, the wait is
    [floor(149.99) = 149], and the timer is set for 149, not 150. *)
Lemma jitter_half_bounds_counterexample :
  9999 # 10000 < 1 /\
  computedWait (resolve (opts_jitter (1 # 2))) 0 (9999 # 10000) == 149 /\
  ~ computedWait (resolve (opts_jitter (1 # 2))) 0 (9999 # 10000) == 150 /\
  events (call_jitter (1 # 2) (9999 # 10000))
  = [EvTask 0 (Throw (JStr "Fail"));
     EvShouldRetry (JStr "Fail") 0 (Normal (JBool true));
     EvOnRetry (JStr "Fail") 0 (Normal JUndefined);
     EvRandom 0 (9999 # 10000);
     EvSetTimeout 0 149;
     EvTask 1 (Normal (JStr "Done"))].
Proof.
  split; [reflexivity|]. split; [vm_compute; reflexivity|].
  split; [vm_compute; discriminate|].
  vm_compute. reflexivity.
Qed.

(** C8, amended. For every configuration, valid or not: a timer is only
    ever set for a positive time; after a retried attempt [k] whose computed
    wait is zero or negative no timer is set and the loop goes straight on to
    attempt [k + 1] (when there is one); and the call can only fail with a
    value that one of the callbacks threw, or with [undefined] when nothing
    was called. The computed wait itself can be negative; it is the pause
    that never is. *)
Theorem nonpositive_wait_sets_no_timer (W : Type) (Math_random : W -> Q * W)
    (task : Task W) (options : option (Options W)) (w : W)
    (R : completion JsVal * W * list event) :
  R = retryMini Math_random task options w ->
  (forall k ms, In (EvSetTimeout k ms) (events R) -> 0 < ms) /\
  (forall e k r, In (EvOnRetry e k (Normal r)) (events R) ->
     exists u,
       (jitterApplies (rawWait (baseDelay (resolve options))
                               (backoffFactor (resolve options)) k)
                      (jitter (resolve options)) = true ->
        In (EvRandom k u) (events R)) /\
       (forall u', In (EvRandom k u') (events R) -> u' = u) /\
       (computedWait (resolve options) k u <= 0 ->
          (forall ms, ~ In (EvSetTimeout k ms) (events R)) /\
          (Qle_bool (inject_Z (k + 1)) (maxRetries (resolve options)) = true ->
           exists r', In (EvTask (k + 1) r') (events R)))) /\
  (forall x, outcome R = Throw x ->
     (x = JUndefined /\ events R = []) \/
     (exists ev, In ev (events R) /\ thrownBy ev = Some x)).
Proof.
  intros ->.
  pose proof (retryMini_Run Math_random task options w) as HR.
  split; [|split].
  - intros k ms Hms. now destruct (Run_timer k ms HR Hms).
  - intros e k r Hin.
    destruct (Run_after_retry e k r HR Hin)
      as (u & Hdraw & Huniq & _ & Hnone & Hnext).
    exists u. split; [|split; [exact Huniq|]].
    + intros Hja. rewrite Hja in Hdraw. now destruct Hdraw.
    + intros Hle. split; [now apply Hnone | exact Hnext].
  - intros x Hx. exact (Run_throw_origin HR Hx).
Qed.

(** The last test of the suite: [jitter = 2], [Math.random] mocked to 0. *)
Lemma nonpositive_wait_sets_no_timer_witness :
  (forall ms, ~ In (EvSetTimeout 0 ms) (events (call_jitter 2 0))) /\
  (exists r', In (EvTask 1 r') (events (call_jitter 2 0))).
Proof.
  destruct (@nonpositive_wait_sets_no_timer nat (randomConst 0)
              (rejectsThen 1 "Fail" (JStr "Done")) (opts_jitter 2) O
              (call_jitter 2 0) eq_refl) as (_ & Hretry & _).
  destruct (Hretry (JStr "Fail") 0%Z JUndefined) as (u & _ & Huniq & Hle).
  { vm_compute. do 2 right. left. reflexivity. }
  assert (Hu : 0 = u).
  { apply Huniq. vm_compute. do 3 right. left. reflexivity. }
  subst u.
  destruct Hle as [Hnone Hnext]; [vm_compute; discriminate|].
  split; [exact Hnone|]. apply Hnext. reflexivity.
Defined.

(** C8 as stated fails in its last part: with [baseDelay = 100],
    [jitter = 2] and [Math.random] at 0 the computed wait is
    [floor(100 * (1 + (0 * 2 - 1) * 2)) = -100], a negative number. No timer
    is set for it. *)
Lemma nonpositive_wait_sets_no_timer_counterexample :
  computedWait (resolve (opts_jitter 2)) 0 0 == -100 /\
  computedWait (resolve (opts_jitter 2)) 0 0 < 0 /\
  events (call_jitter 2 0)
  = [EvTask 0 (Throw (JStr "Fail"));
     EvShouldRetry (JStr "Fail") 0 (Normal (JBool true));
     EvOnRetry (JStr "Fail") 0 (Normal JUndefined);
     EvRandom 0 0;
     EvTask 1 (Normal (JStr "Done"))].
Proof.
  split; [vm_compute; reflexivity|]. split; [vm_compute; reflexivity|].
  vm_compute. reflexivity.
Qed.

(** * Further properties of the loop *)

Section MoreLoopFacts.

Variable W : Type.
Variable Math_random : W -> Q * W.
Variable task : Task W.
Variable cfg : Config W.

Local Abbreviation Run := (Run Math_random task cfg).
Local Abbreviation Pause := (Pause Math_random cfg).

Ltac head_cases H :=
  cbn in H;
  repeat (destruct H as [H|H];
          [try discriminate H; try (inversion H; subst; try clear H)|]);
  try contradiction.

Lemma failedArgs_app (l1 l2 : list event) :
  failedArgs (l1 ++ l2) = failedArgs l1 ++ failedArgs l2.
Proof.
  induction l1 as [|[? [] | | | |] l1 IH]; cbn; congruence.
Qed.

Lemma shouldRetryArgs_app (l1 l2 : list event) :
  shouldRetryArgs (l1 ++ l2) = shouldRetryArgs l1 ++ shouldRetryArgs l2.
Proof.
  induction l1 as [|[] l1 IH]; cbn; congruence.
Qed.

Lemma onRetryArgs_app (l1 l2 : list event) :
  onRetryArgs (l1 ++ l2) = onRetryArgs l1 ++ onRetryArgs l2.
Proof.
  induction l1 as [|[] l1 IH]; cbn; congruence.
Qed.


Lemma Pause_no_calls (a : Z) (ws : list event) :
  Pause a ws ->
  failedArgs ws = [] /\ shouldRetryArgs ws = [] /\ onRetryArgs ws = [].
Proof.
  intros [Hj | u Hj Hd]; unfold timer; destruct (Qltb 0 _); cbn; auto.
Qed.

(** A call resolves only with a value the task returned, and that return
    is the last thing that happens. *)
Lemma Run_resolves (a : Z) (e0 : JsVal) (tr : list event)
    (out : completion JsVal) :
  Run a e0 tr out ->
  forall v, out = Normal v ->
  exists k pre, tr = pre ++ [EvTask k (Normal v)].
Proof.
  induction 1 as [ | a e0 v0 Hle Yt | | | 
                 | a e0 e v0 r ws tr out Hle Yt Ys Hst Yo HP HR IH];
    intros y Hy; try discriminate Hy.
  - inversion Hy; subst. exists a, []. reflexivity.
  - destruct (IH y Hy) as (k & pre & ->).
    exists k. eexists. rewrite !app_assoc. reflexivity.
Qed.

(** The hooks are called with the failure the task has just thrown and with
    the number of that attempt; [onRetry] only after [shouldRetry] has let
    the loop go on. *)
Lemma Run_hook_arguments (a : Z) (e0 : JsVal) (tr : list event)
    (out : completion JsVal) (e : JsVal) (k : Z) (r : completion JsVal) :
  Run a e0 tr out ->
  (In (EvShouldRetry e k r) tr -> In (EvTask k (Throw e)) tr) /\
  (In (EvOnRetry e k r) tr ->
   In (EvTask k (Throw e)) tr /\
   exists v, In (EvShouldRetry e k (Normal v)) tr /\ stops cfg v k = false).
Proof.
  intros HR. split; intros Hin;
    destruct (Run_reaches HR _ Hin)
      as (e1 & pre & tr' & -> & HR' & Hin' & Hge & Hargs & Hlt);
    cbn [attemptOf] in *.
  - apply in_or_app. right.
    inversion HR'; subst tr'; subst; try (head_cases Hin'; cbn; auto; fail).
    match goal with
    | HP : Pause _ _, HR2 : Run (_ + 1)%Z _ _ _ |- _ =>
        destruct (Continue_In (ev := EvShouldRetry e k r)
                    HP HR2 eq_refl eq_refl Hin') as [Hc|[Hc|Hc]]
    end; try discriminate Hc.
    inversion Hc; subst. cbn. auto.
  - inversion HR'; subst tr'; subst; try (head_cases Hin'; fail).
    + head_cases Hin'. split.
      * apply in_or_app. right. cbn. auto.
      * eexists. split; [apply in_or_app; right; cbn; eauto | assumption].
    + match goal with
      | HP : Pause _ _, HR2 : Run (_ + 1)%Z _ _ _ |- _ =>
          destruct (Continue_In (ev := EvOnRetry e k r)
                      HP HR2 eq_refl eq_refl Hin') as [Hc|[Hc|Hc]]
      end; try discriminate Hc.
      inversion Hc; subst. split.
      * apply in_or_app. right. cbn. auto.
      * eexists. split; [apply in_or_app; right; cbn; eauto | assumption].
Qed.

(** [shouldRetry] is called once for every failure of the task, the last
    attempt included; [onRetry] for the same attempts, except possibly the
    last one. *)
Lemma Run_hook_calls (a : Z) (e0 : JsVal) (tr : list event)
    (out : completion JsVal) :
  Run a e0 tr out ->
  shouldRetryArgs tr = failedArgs tr /\
  exists rest, failedArgs tr = onRetryArgs tr ++ rest /\ (length rest <= 1)%nat.
Proof.
  induction 1 as [ | | | | 
                 | a e0 e v0 r ws tr out Hle Yt Ys Hst Yo HP HR [IH1 IH2]];
    cbn.
  - split; [reflexivity|]. exists []. auto.
  - split; [reflexivity|]. exists []. auto.
  - split; [reflexivity|]. exists [a]. auto.
  - split; [reflexivity|]. exists [a]. auto.
  - split; [reflexivity|]. exists []. auto.
  - destruct (Pause_no_calls HP) as (Hf & Hs & Ho).
    rewrite failedArgs_app, shouldRetryArgs_app, onRetryArgs_app, Hf, Hs, Ho.
    cbn. split; [now rewrite IH1|].
    destruct IH2 as (rest & -> & Hlen). exists rest. auto.
Qed.

(** [onRetry] is never called for an attempt that is not below
    [maxRetries]. *)
Lemma Run_onRetry_below (a : Z) (e0 : JsVal) (tr : list event)
    (out : completion JsVal) (e : JsVal) (k : Z) (r : completion JsVal) :
  Run a e0 tr out ->
  In (EvOnRetry e k r) tr ->
  inject_Z k < maxRetries cfg.
Proof.
  intros HR Hin.
  destruct (Run_hook_arguments e k r HR) as [_ H].
  destruct (H Hin) as (_ & v & Hsr & Hst).
  pose proof (Run_attempt_le HR _ Hin) as Hle. cbn in Hle.
  apply Qle_bool_inject in Hle. apply Qle_bool_iff in Hle.
  unfold stops in Hst. apply orb_false_iff in Hst as [_ Hne].
  apply Qle_lteq in Hle as [Hlt | Heq]; [exact Hlt|].
  apply Qeq_bool_iff in Heq. congruence.
Qed.

(** After a retried attempt [k] the events come in the order of the source:
    the failed call, [shouldRetry], [onRetry], the pause, and then either
    the call of the task for [k + 1] or, when [k + 1] is past [maxRetries],
    nothing more: the call fails with the failure of attempt [k]. *)
Lemma Run_sequence (a : Z) (e0 : JsVal) (tr : list event)
    (out : completion JsVal) (e : JsVal) (k : Z) (r : JsVal) :
  Run a e0 tr out ->
  In (EvOnRetry e k (Normal r)) tr ->
  exists pre v ws rest,
    tr = pre ++ [EvTask k (Throw e); EvShouldRetry e k (Normal v);
                 EvOnRetry e k (Normal r)] ++ ws ++ rest /\
    (forall ev, In ev pre -> (attemptOf ev < k)%Z) /\
    (forall ev, In ev ws -> attemptOf ev = k /\ isPause ev = true) /\
    (forall ev, In ev rest -> (k < attemptOf ev)%Z) /\
    (Qle_bool (inject_Z (k + 1)) (maxRetries cfg) = true ->
       exists r' rest', rest = EvTask (k + 1) r' :: rest') /\
    (Qle_bool (inject_Z (k + 1)) (maxRetries cfg) = false ->
       rest = [] /\ out = Throw e).
Proof.
  intros HR Hin.
  destruct (Run_retried HR Hin eq_refl
              (or_intror (ex_intro _ e (ex_intro _ r eq_refl))))
    as (pre & e' & v & r' & ws & tr2 & -> & Hlt & Hst & HP & HR2 & _ & Hev).
  cbn [attemptOf] in *. specialize (Hev eq_refl). inversion Hev; subst e' r'.
  exists pre, v, ws, tr2. split; [reflexivity|]. split; [exact Hlt|].
  split; [exact (Pause_events HP)|]. split.
  { intros ev Hev'. pose proof (Run_attempt_ge HR2 _ Hev'). lia. }
  split; intros Hle.
  - inversion HR2; subst; try congruence; cbn; eauto.
  - inversion HR2; subst; try congruence. auto.
Qed.


Lemma rawWait_nonpositive (d b : Q) (k : Z) : d <= 0 -> rawWait d b k <= 0.
Proof.
  intros Hd. unfold rawWait.
  pose proof (Q.le_max_l 1 (b ^ k)) as Hm.
  set (m := Qmax 1 (b ^ k)) in *. nra.
Qed.

(** Without a positive [baseDelay] a run neither draws a number nor sets a
    timer. *)
Lemma Run_no_pause (a : Z) (e0 : JsVal) (tr : list event)
    (out : completion JsVal) :
  baseDelay cfg <= 0 ->
  Run a e0 tr out ->
  forall ev, In ev tr -> isPause ev = false.
Proof.
  intros Hbd HR ev Hin. destruct (isPause ev) eqn:Hp; [exfalso|reflexivity].
  destruct (Run_retried HR Hin eq_refl (or_introl Hp))
    as (pre & e & v & r & ws & tr2 & _ & _ & _ & HP & _ & Hws & _).
  specialize (Hws Hp).
  pose proof (rawWait_nonpositive (backoffFactor cfg) (attemptOf ev) Hbd) as Hw.
  apply Qltb_false_iff in Hw.
  inversion HP as [Hj Heq | u0 Hj Hd Heq]; subst ws.
  - unfold timer in Hws. now rewrite Hw in Hws.
  - unfold jitterApplies in Hj. rewrite Hw in Hj. discriminate Hj.
Qed.


End MoreLoopFacts.

(** ** More about the numbers *)

(** X13. With a factor of at least 1 (and [baseDelay >= 0]) the [Math.max]
    changes nothing: the wait is [baseDelay * backoffFactor ^ k], and it does
    not shrink from one attempt to the next. *)
Lemma rawWait_growing (d b : Q) (k : Z) :
  0 <= d -> 1 <= b -> (0 <= k)%Z ->
  rawWait d b k == d * b ^ k /\ rawWait d b k <= rawWait d b (k + 1).
Proof.
  intros Hd Hb Hk.
  assert (Hp : 1 <= b ^ k) by now apply Qpower_1_le.
  assert (Hp' : 1 <= b ^ (k + 1)) by (apply Qpower_1_le; [exact Hb | lia]).
  assert (Hs : b ^ (k + 1) == b ^ k * b).
  { rewrite Qpower_plus; [now rewrite Qpower_1_r|].
    intros Hc. rewrite Hc in Hb. lra. }
  unfold rawWait. rewrite (Q.max_r _ _ Hp), (Q.max_r _ _ Hp').
  split; [reflexivity|]. rewrite Hs, Qmult_assoc.
  set (y := b ^ k) in *.
  assert (Hz : 0 <= d * y) by nra.
  set (z := d * y) in *. nra.
Qed.


Section FractionalFacts.

Variable W : Type.
Variable Math_random : W -> Q * W.
Variable task : Task W.
Variable cfg : Config W.

(** A task that always fails, under hooks that let the loop go on, with a
    [maxRetries] that is no integer: the test [attemptNumber === maxRetries]
    never holds, so [onRetry] is called after every attempt, the last one
    included. *)
Lemma Run_always_fails_fractional :
  (forall a, ~ inject_Z a == maxRetries cfg) ->
  (forall k v, ~ yields (task k) (Normal v)) ->
  (forall e k r, yields (shouldRetry cfg e k) r -> r = Normal (JBool true)) ->
  (forall e k x, ~ yields (onRetry cfg e k) (Throw x)) ->
  forall a e0 tr out,
    Run Math_random task cfg a e0 tr out ->
    taskArgs tr = upto a (remaining cfg a) /\
    onRetryArgs tr = upto a (remaining cfg a).
Proof.
  intros Hfrac Htask Hsr Hor.
  assert (Hgo : forall a, stops cfg (JBool true) a = false).
  { intros a. unfold stops. cbn.
    destruct (Qeq_bool _ _) eqn:Hq; [|reflexivity].
    apply Qeq_bool_iff in Hq. now apply Hfrac in Hq. }
  induction 1 as [ a e0 Hle | a e0 v Hle Yt | a e0 e x Hle Yt Ys
                 | a e0 e v Hle Yt Ys Hst | a e0 e v x Hle Yt Ys Hst Yo
                 | a e0 e v r ws tr out Hle Yt Ys Hst Yo HP HR [IH1 IH2]].
  - assert (~ (a <= Qfloor (maxRetries cfg))%Z).
    { intros Hc. apply Qle_bool_inject in Hc. congruence. }
    unfold remaining. replace (Z.to_nat _) with O by lia. split; reflexivity.
  - now apply Htask in Yt.
  - apply Hsr in Ys. discriminate Ys.
  - apply Hsr in Ys. inversion Ys; subst v. rewrite Hgo in Hst.
    discriminate Hst.
  - now apply Hor in Yo.
  - apply Qle_bool_inject in Hle. unfold remaining in *.
    replace (Z.to_nat (Qfloor (maxRetries cfg) + 1 - a))
      with (S (Z.to_nat (Qfloor (maxRetries cfg) + 1 - (a + 1)))) by lia.
    destruct (Pause_no_calls HP) as (_ & _ & Ho).
    cbn [app onRetryArgs taskArgs upto].
    rewrite taskArgs_app, onRetryArgs_app, (Pause_taskArgs HP), Ho, IH1, IH2.
    split; reflexivity.
Qed.

End FractionalFacts.

(** * Further properties of [retryMini] *)

(** The wait grows from 100 to 200 between attempts 0 and 1 with factor 2. *)
Lemma rawWait_growing_witness :
  rawWait 100 2 3 == 100 * 2 ^ 3 /\ rawWait 100 2 3 <= rawWait 100 2 (3 + 1).
Proof.
  apply (@rawWait_growing 100 2 3); discriminate.
Defined.

(** X1. The attempt counter: in every call the task is called for
    [0, 1, 2, ...] in this order, at most [floor(maxRetries) + 1] times, and
    everything that happens is stamped with an attempt number between 0 and
    [maxRetries]. *)
Theorem attempt_counter_invariant (W : Type) (Math_random : W -> Q * W)
    (task : Task W) (options : option (Options W)) (w : W) :
  taskArgs (events (retryMini Math_random task options w))
  = upto 0 (length (taskArgs (events (retryMini Math_random task options w))))
  /\
  (length (taskArgs (events (retryMini Math_random task options w)))
   <= Z.to_nat (Qfloor (maxRetries (resolve options)) + 1))%nat /\
  (forall ev, In ev (events (retryMini Math_random task options w)) ->
     (0 <= attemptOf ev)%Z /\
     inject_Z (attemptOf ev) <= maxRetries (resolve options)).
Proof.
  pose proof (retryMini_Run Math_random task options w) as HR.
  destruct (attempts_numbered_and_bounded Math_random task options w)
    as [Hargs Hlen].
  split; [exact Hargs|]. split; [exact Hlen|].
  intros ev Hin. split; [exact (Run_attempt_ge HR _ Hin)|].
  apply Qle_bool_iff, Qle_bool_inject. exact (Run_attempt_le HR _ Hin).
Qed.

(** X2. If the task returns [v] on some attempt [k], the call resolves with
    [v], this return is the last event, and the task has been called exactly
    for [0, ..., k]. *)
Theorem success_at_any_attempt (W : Type) (Math_random : W -> Q * W)
    (task : Task W) (options : option (Options W)) (w : W)
    (k : Z) (v : JsVal) (R : completion JsVal * W * list event) :
  R = retryMini Math_random task options w ->
  In (EvTask k (Normal v)) (events R) ->
  outcome R = Normal v /\
  (exists pre, events R = pre ++ [EvTask k (Normal v)]) /\
  taskArgs (events R) = upto 0 (Z.to_nat k + 1).
Proof.
  intros -> Hin.
  pose proof (retryMini_Run Math_random task options w) as HR.
  destruct (Run_success k v HR Hin) as (Hout & pre & Htr & Hargs & Hpre).
  split; [exact Hout|]. split; [now exists pre|].
  pose proof (Run_attempt_ge HR _ Hin) as Hge. cbn in Hge.
  rewrite Htr, taskArgs_app, Hargs. cbn.
  rewrite Z.sub_0_r, upto_app. cbn. do 2 f_equal. lia.
Qed.

(** Two rejections, then "Third time charm" on attempt 2. *)
Lemma success_at_any_attempt_witness :
  outcome call_third_time = Normal (JStr "Third time charm") /\
  (exists pre, events call_third_time
               = pre ++ [EvTask 2 (Normal (JStr "Third time charm"))]) /\
  taskArgs (events call_third_time) = [0; 1; 2]%Z.
Proof.
  apply (@success_at_any_attempt nat (randomConst 0)
           (rejectsThen 2 "Fail" (JStr "Third time charm"))
           (opts (Some 3) None None None None None) O
           2 (JStr "Third time charm") call_third_time).
  - reflexivity.
  - vm_compute. do 6 right. left. reflexivity.
Defined.

(** X3. A call resolves only with a value the task returned: when the
    outcome is [v], the last event is a call of the task that returned
    [v]. *)
Theorem resolves_only_with_task_value (W : Type) (Math_random : W -> Q * W)
    (task : Task W) (options : option (Options W)) (w : W) (v : JsVal)
    (R : completion JsVal * W * list event) :
  R = retryMini Math_random task options w ->
  outcome R = Normal v ->
  exists k pre, events R = pre ++ [EvTask k (Normal v)].
Proof.
  intros -> Hout.
  exact (Run_resolves (retryMini_Run Math_random task options w) Hout).
Qed.

Lemma resolves_only_with_task_value_witness :
  exists k pre,
    events call_third_time = pre ++ [EvTask k (Normal (JStr "Third time charm"))].
Proof.
  apply (@resolves_only_with_task_value nat (randomConst 0)
           (rejectsThen 2 "Fail" (JStr "Third time charm"))
           (opts (Some 3) None None None None None) O
           (JStr "Third time charm") call_third_time).
  - reflexivity.
  - vm_compute. reflexivity.
Defined.

(** X4. The hooks get the failure the task has just thrown, with the number
    of that attempt: a call [shouldRetry(e, k)] or [onRetry(e, k)] only
    happens in a run where [task(k)] threw [e]; and [onRetry(e, k)] only
    after [shouldRetry(e, k)] returned a value that does not stop the
    loop. *)
Theorem hooks_receive_caught_failure (W : Type) (Math_random : W -> Q * W)
    (task : Task W) (options : option (Options W)) (w : W)
    (e : JsVal) (k : Z) (r : completion JsVal)
    (R : completion JsVal * W * list event) :
  R = retryMini Math_random task options w ->
  (In (EvShouldRetry e k r) (events R) -> In (EvTask k (Throw e)) (events R))
  /\
  (In (EvOnRetry e k r) (events R) ->
   In (EvTask k (Throw e)) (events R) /\
   exists v, In (EvShouldRetry e k (Normal v)) (events R) /\
             ToBoolean (nullish v (JBool true)) = true /\
             ~ inject_Z k == maxRetries (resolve options)).
Proof.
  intros ->.
  pose proof (retryMini_Run Math_random task options w) as HR.
  destruct (Run_hook_arguments e k r HR) as [H1 H2].
  split; [exact H1|]. intros Hin.
  destruct (H2 Hin) as (Ht & v & Hsr & Hst).
  split; [exact Ht|]. exists v. split; [exact Hsr|].
  unfold stops in Hst. apply orb_false_iff in Hst as [Hb Hq].
  split; [now apply negb_false_iff in Hb|].
  intros Hc. apply Qeq_bool_iff in Hc. congruence.
Qed.

Lemma hooks_receive_caught_failure_witness :
  In (EvTask 1 (Throw (JStr "Permanent Failure"))) (events call_permanent) /\
  exists v,
    In (EvShouldRetry (JStr "Permanent Failure") 1 (Normal v))
       (events call_permanent) /\
    ToBoolean (nullish v (JBool true)) = true /\
    ~ inject_Z 1 == 2.
Proof.
  destruct (@hooks_receive_caught_failure nat (randomConst 0)
              (alwaysFails "Permanent Failure")
              (opts (Some 2) (Some 0) None None None None) O
              (JStr "Permanent Failure") 1 (Normal JUndefined)
              call_permanent eq_refl) as [_ H].
  apply H. vm_compute. do 5 right. left. reflexivity.
Defined.

(** X5. In every call [shouldRetry] is called exactly once for each failure
    of the task, the failure of the last attempt included, and [onRetry] for
    the same attempts in the same order, except at most the last one. *)
Theorem hook_calls_follow_failures (W : Type) (Math_random : W -> Q * W)
    (task : Task W) (options : option (Options W)) (w : W) :
  shouldRetryArgs (events (retryMini Math_random task options w))
  = failedArgs (events (retryMini Math_random task options w)) /\
  exists rest,
    failedArgs (events (retryMini Math_random task options w))
    = onRetryArgs (events (retryMini Math_random task options w)) ++ rest /\
    (length rest <= 1)%nat.
Proof.
  exact (Run_hook_calls (retryMini_Run Math_random task options w)).
Qed.

(** X6. [onRetry] is only ever called for an attempt [k] with
    [0 <= k < maxRetries]; with [maxRetries <= 0] it is never called. *)
Theorem onRetry_only_below_maxRetries (W : Type) (Math_random : W -> Q * W)
    (task : Task W) (options : option (Options W)) (w : W)
    (e : JsVal) (k : Z) (r : completion JsVal)
    (R : completion JsVal * W * list event) :
  R = retryMini Math_random task options w ->
  In (EvOnRetry e k r) (events R) ->
  (0 <= k)%Z /\ inject_Z k < maxRetries (resolve options) /\
  0 < maxRetries (resolve options).
Proof.
  intros -> Hin.
  pose proof (retryMini_Run Math_random task options w) as HR.
  pose proof (Run_attempt_ge HR _ Hin) as Hge. cbn in Hge.
  pose proof (Run_onRetry_below e k r HR Hin) as Hlt.
  split; [exact Hge|]. split; [exact Hlt|].
  apply Qle_lt_trans with (inject_Z k); [|exact Hlt].
  change 0 with (inject_Z 0). now rewrite <- Zle_Qle.
Qed.

Lemma onRetry_only_below_maxRetries_witness :
  (0 <= 1)%Z /\ inject_Z 1 < maxRetries (resolve (opts (Some 2) (Some 0) None None None None)) /\
  0 < maxRetries (resolve (opts (Some 2) (Some 0) None None None None)).
Proof.
  apply (@onRetry_only_below_maxRetries nat (randomConst 0)
           (alwaysFails "Permanent Failure")
           (opts (Some 2) (Some 0) None None None None) O
           (JStr "Permanent Failure") 1 (Normal JUndefined) call_permanent).
  - reflexivity.
  - vm_compute. do 5 right. left. reflexivity.
Defined.

(** X7. After a retried attempt [k] the events come in the order of the
    source: everything of the earlier attempts, then the failed call of the
    task, [shouldRetry], [onRetry], the pause of attempt [k], and then the
    call of the task for [k + 1]; or, when [k + 1] is past [maxRetries],
    nothing more, and the call fails with the failure of attempt [k]. *)
Theorem retried_attempt_sequence (W : Type) (Math_random : W -> Q * W)
    (task : Task W) (options : option (Options W)) (w : W)
    (e : JsVal) (k : Z) (r : JsVal)
    (R : completion JsVal * W * list event) :
  R = retryMini Math_random task options w ->
  In (EvOnRetry e k (Normal r)) (events R) ->
  exists pre v ws rest,
    events R = pre ++ [EvTask k (Throw e); EvShouldRetry e k (Normal v);
                       EvOnRetry e k (Normal r)] ++ ws ++ rest /\
    (forall ev, In ev pre -> (attemptOf ev < k)%Z) /\
    (forall ev, In ev ws -> attemptOf ev = k /\ isPause ev = true) /\
    (forall ev, In ev rest -> (k < attemptOf ev)%Z) /\
    (Qle_bool (inject_Z (k + 1)) (maxRetries (resolve options)) = true ->
       exists r' rest', rest = EvTask (k + 1) r' :: rest') /\
    (Qle_bool (inject_Z (k + 1)) (maxRetries (resolve options)) = false ->
       rest = [] /\ outcome R = Throw e).
Proof.
  intros -> Hin.
  exact (Run_sequence e k r (retryMini_Run Math_random task options w) Hin).
Qed.

Lemma retried_attempt_sequence_witness :
  exists pre v ws rest,
    events call_backoff
    = pre ++ [EvTask 1 (Throw (JStr "Fail"));
              EvShouldRetry (JStr "Fail") 1 (Normal v);
              EvOnRetry (JStr "Fail") 1 (Normal JUndefined)] ++ ws ++ rest /\
    (forall ev, In ev pre -> (attemptOf ev < 1)%Z) /\
    (forall ev, In ev ws -> attemptOf ev = 1%Z /\ isPause ev = true) /\
    (forall ev, In ev rest -> (1 < attemptOf ev)%Z) /\
    (Qle_bool (inject_Z (1 + 1)) (maxRetries (resolve opts_backoff)) = true ->
       exists r' rest', rest = EvTask (1 + 1) r' :: rest') /\
    (Qle_bool (inject_Z (1 + 1)) (maxRetries (resolve opts_backoff)) = false ->
       rest = [] /\ outcome call_backoff = Throw (JStr "Fail")).
Proof.
  apply (@retried_attempt_sequence nat (randomConst 0) (alwaysFails "Fail")
           opts_backoff O (JStr "Fail") 1 JUndefined call_backoff).
  - reflexivity.
  - vm_compute. do 6 right. left. reflexivity.
Defined.

(** X8. With a [maxRetries] that is no integer the test
    [attemptNumber === maxRetries] never holds: for a task that always
    fails (and hooks that let the loop go on) [onRetry] is called after
    every attempt, the last one included, [floor(maxRetries) + 1] times. *)
Theorem fractional_maxRetries_retries_after_last_attempt (W : Type)
    (Math_random : W -> Q * W) (task : Task W)
    (options : option (Options W)) (w : W)
    (R : completion JsVal * W * list event) :
  R = retryMini Math_random task options w ->
  (forall a, ~ inject_Z a == maxRetries (resolve options)) ->
  (forall k w0, exists e, fst (task k w0) = Throw e) ->
  (forall e k w0,
     fst (shouldRetry (resolve options) e k w0) = Normal (JBool true)) ->
  (forall e k w0 x, fst (onRetry (resolve options) e k w0) <> Throw x) ->
  taskArgs (events R)
  = upto 0 (Z.to_nat (Qfloor (maxRetries (resolve options)) + 1)) /\
  onRetryArgs (events R) = taskArgs (events R).
Proof.
  intros -> Hfrac Htask Hsr Hor.
  pose proof (retryMini_Run Math_random task options w) as HR.
  assert (H1 : forall k v, ~ yields (task k) (Normal v)).
  { intros k v [w0 Hy]. destruct (Htask k w0) as [e He]. congruence. }
  assert (H2 : forall e k r, yields (shouldRetry (resolve options) e k) r ->
                             r = Normal (JBool true)).
  { intros e k r [w0 Hy]. rewrite <- Hy. apply Hsr. }
  assert (H3 : forall e k x, ~ yields (onRetry (resolve options) e k) (Throw x)).
  { intros e k x [w0 Hy]. exact (Hor e k w0 x Hy). }
  destruct (Run_always_fails_fractional Hfrac H1 H2 H3 HR) as [Ht Ho].
  unfold remaining in *. rewrite Z.sub_0_r in *.
  split; [exact Ht | now rewrite Ho, Ht].
Qed.

(** [maxRetries: 2.5]: three calls of the task, three of [onRetry]. *)
Lemma fractional_maxRetries_retries_after_last_attempt_witness :
  taskArgs (events call_fractional) = [0; 1; 2]%Z /\
  onRetryArgs (events call_fractional) = taskArgs (events call_fractional).
Proof.
  apply (@fractional_maxRetries_retries_after_last_attempt nat (randomConst 0)
           (alwaysFails "Fail")
           (opts (Some (5 # 2)) (Some 100) None None None None) O
           call_fractional).
  - reflexivity.
  - intros a H. unfold Qeq in H. cbn in H. lia.
  - intros k w0. exists (JStr "Fail"). reflexivity.
  - intros e k w0. reflexivity.
  - intros e k w0 x. discriminate.
Defined.



(** X10. Without a positive [baseDelay] (the default is 0) a call never
    sets a timer and never calls [Math.random], whatever [backoffFactor]
    and [jitter] are. *)
Theorem no_pause_without_baseDelay (W : Type) (Math_random : W -> Q * W)
    (task : Task W) (options : option (Options W)) (w : W)
    (R : completion JsVal * W * list event) :
  R = retryMini Math_random task options w ->
  baseDelay (resolve options) <= 0 ->
  timers (events R) = [] /\
  (forall ev, In ev (events R) -> isPause ev = false).
Proof.
  intros -> Hbd.
  pose proof (Run_no_pause Hbd (retryMini_Run Math_random task options w))
    as Hno.
  split; [|exact Hno].
  induction (events (retryMini Math_random task options w)) as [|ev tr IH];
    [reflexivity|].
  pose proof (Hno ev (or_introl eq_refl)) as Hev.
  destruct ev; cbn in *; try discriminate Hev;
    apply IH; intros ev' Hin; apply Hno; now right.
Qed.

Lemma no_pause_without_baseDelay_witness :
  timers (events call_defaults) = [] /\
  (forall ev, In ev (events call_defaults) -> isPause ev = false).
Proof.
  apply (@no_pause_without_baseDelay nat (randomConst 0) (alwaysFails "Fail")
           None O call_defaults).
  - reflexivity.
  - discriminate.
Defined.





(** The CommonJS wrapper calls the default export of the module when
    there is one, and falls back to the export named [retryMini] only when
    there is none; on [index.js], which has the default export only, a call
    through the wrapper gives exactly what [retryMini] gives, with the
    options passed on as they are (absent options included). *)
Theorem cjs_wrapper_agrees (W : Type) (Math_random : W -> Q * W)
    (task : Task W) (options : option (Options W)) (w : W) :
  retryMiniCjs (index_js Math_random) task options w
  = Some (retryMini Math_random task options w) /\
  (forall f g, retryMiniCjs (mkModule (Some f) g) task options w
               = Some (f task options w)) /\
  (forall g, retryMiniCjs (mkModule None (Some g)) task options w
             = Some (g task options w)) /\
  retryMiniCjs (mkModule None None) task options w = None.
Proof.
  repeat split; reflexivity.
Qed.
